(** * skoot.preprocessing.skewness: Box-Cox and Yeo-Johnson transformers

    A shallow embedding of [skoot/preprocessing/skewness.py] and of the
    validators of [skoot/utils/validation.py] it calls.

    Numbers.  Every column the transformers accept has passed
    [check_dataframe(..., assert_all_finite=True)], so the cells are finite
    floats; they are modelled as real numbers of [R], and float arithmetic
    as the arithmetic of [R]: rounding and overflow are outside the model.
    The one non-finite value the code produces on its own, [np.nan], is the
    constructor [NaN] of [scalar].  An array keeps its dtype: what is
    assigned into an int64 array is cast, the fraction dropped ([Rtrunc]).
    The columns of a frame are float64 and carry distinct labels.

    Objects.  numpy arrays and pandas frames are mutable and shared, so they
    live in a [Store]; a Python name holding an array is an [ndref].  Every
    function that touches an array is written in the monad [M] (state plus
    exceptions), in the order of the statements of the source. *)

From Stdlib Require Import String Reals Lra Lia Bool Arith ZArith List.
Import ListNotations.
Open Scope R_scope.

(** ** Scalars *)

(** [ZERO = 1E-16] *)
Definition ZERO : R := 1 / 10 ^ 16.

(** A Python float that is either finite or [np.nan]. *)
Inductive scalar : Type :=
| Num (r : R)
| NaN.

(** Unary minus on a float: [-nan] is [nan]. *)
Definition sneg (x : scalar) : scalar :=
  match x with
  | Num r => Num (- r)
  | NaN => NaN
  end.

(** The comparisons [<], [>], [>=] and [==] of two floats. *)
Definition Rltb (a b : R) : bool := if Rlt_dec a b then true else false.
Definition Rgtb (a b : R) : bool := if Rgt_dec a b then true else false.
Definition Rgeb (a b : R) : bool := if Rge_dec a b then true else false.
Definition Reqb (a b : R) : bool := if Req_dec_T a b then true else false.

(** [np.log] and [**] with a float exponent, on positive numbers, where
    they are the logarithm and the power of [R].  The Yeo-Johnson code
    calls them on positive numbers only ([x + 1] for [x >= 0], [-x + 1] for
    [x < 0], a variance that is not 0); the Box-Cox code does when
    [min_value] is positive.  At 0 and below numpy answers [-inf], [nan] or
    its own power, none of which [ln] and [Rpower] give: every statement
    about a value they compute carries the hypothesis that keeps the
    argument positive. *)
Definition np_log (x : R) : R := ln x.
Definition np_power (x p : R) : R := Rpower x p.

(** The cast of a float to int64: the fraction is dropped, towards 0. *)
Definition Rtrunc (x : R) : R :=
  if Rgeb x 0 then IZR (Int_part x) else - IZR (Int_part (- x)).

(** ** Column labels *)

Inductive label : Type :=
| LStr (s : string)
| LInt (n : nat).

Definition label_eqb (a b : label) : bool :=
  match a, b with
  | LStr s, LStr t => String.eqb s t
  | LInt n, LInt m => Nat.eqb n m
  | _, _ => false
  end.

(** ** The store *)

Definition ndarray := list R.

(** A [pd.DataFrame] of float64 columns: its columns in order, each with
    its label. *)
Definition DataFrame := list (label * ndarray).

Record Store : Type := mkStore {
  arrays : list ndarray;
  frames : list DataFrame
}.

(** What a Python name that holds an [np.ndarray] refers to: a float64
    buffer of its own, the buffer of column [nm] of frame [f] (what
    [np.asarray] of the series [X[nm]] is: a view, no copy), or an int64
    buffer of its own, whose cells are whole numbers. *)
Inductive ndref : Type :=
| Arr (a : nat)
| Col (f : nat) (nm : label)
| IArr (a : nat).

(** An "array-like" argument: an array (or series) that already has a
    buffer, or a plain Python list of floats. *)
Inductive arraylike : Type :=
| NdArray (r : ndref)
| PyList (l : list R).

Inductive exn : Type :=
| TypeError
| ValueError
| KeyError
| AttributeError
| NotFittedError.

Inductive result (A : Type) : Type :=
| Ok (a : A)
| Raise (e : exn).
Arguments Ok {A} a.
Arguments Raise {A} e.

(** State and exceptions; the store survives a raise, as the heap does. *)
Definition M (A : Type) : Type := Store -> result A * Store.

Definition ret {A} (a : A) : M A := fun s => (Ok a, s).
Definition raise {A} (e : exn) : M A := fun s => (Raise e, s).
Definition bind {A B} (m : M A) (k : A -> M B) : M B :=
  fun s => match m s with
           | (Ok a, s') => k a s'
           | (Raise e, s') => (Raise e, s')
           end.

Declare Scope py_scope.
Delimit Scope py_scope with py.
Notation "x <- c ;; k" := (bind c (fun x => k))
  (at level 61, c at next level, right associativity) : py_scope.
Notation "' p <- c ;; k" := (bind c (fun x => match x with p => k end))
  (at level 61, p pattern, c at next level, right associativity) : py_scope.
Notation "c ;;; k" := (bind c (fun _ => k))
  (at level 61, right associativity) : py_scope.
Open Scope py_scope.

Fixpoint mapM {A B} (f : A -> M B) (l : list A) : M (list B) :=
  match l with
  | [] => ret []
  | a :: l' => b <- f a ;; bs <- mapM f l' ;; ret (b :: bs)
  end.

Fixpoint forM_ {A} (l : list A) (f : A -> M unit) : M unit :=
  match l with
  | [] => ret tt
  | a :: l' => f a ;;; forM_ l' f
  end.

(** *** Frames *)

Definition columns (df : DataFrame) : list label := map fst df.

Fixpoint get_column (df : DataFrame) (nm : label) : option ndarray :=
  match df with
  | [] => None
  | (c, v) :: df' => if label_eqb c nm then Some v else get_column df' nm
  end.

(** [df[nm] = v]: the column labelled [nm] takes the new values; a label
    the frame does not have yet is appended.  (The labels of a frame are
    distinct; were one repeated, every column carrying it would take the
    values here, where pandas treats each such column on its own.) *)
Fixpoint replace_column (df : DataFrame) (nm : label) (v : ndarray) : DataFrame :=
  match df with
  | [] => []
  | (c, w) :: df' =>
      (c, if label_eqb c nm then v else w) :: replace_column df' nm v
  end.

Definition has_column (df : DataFrame) (nm : label) : bool :=
  existsb (label_eqb nm) (columns df).

Definition set_column (df : DataFrame) (nm : label) (v : ndarray) : DataFrame :=
  if has_column df nm then replace_column df nm v else df ++ [(nm, v)].

(** [frame.shape[0]] *)
Definition n_rows (df : DataFrame) : nat :=
  match df with
  | [] => 0%nat
  | (_, v) :: _ => length v
  end.

(** [X.values]: the cells as a matrix, one list per row. *)
Definition values (df : DataFrame) : list (list R) :=
  map (fun i => map (fun c => nth i (snd c) 0) df) (seq 0 (n_rows df)).

(** *** Reading and writing the store *)

Fixpoint update {A} (l : list A) (i : nat) (a : A) : list A :=
  match l, i with
  | [], _ => []
  | _ :: l', O => a :: l'
  | x :: l', S j => x :: update l' j a
  end.

Definition read (r : ndref) (s : Store) : option ndarray :=
  match r with
  | Arr a => nth_error (arrays s) a
  | Col f nm =>
      match nth_error (frames s) f with
      | Some df => get_column df nm
      | None => None
      end
  | IArr a => nth_error (arrays s) a
  end.

Definition write (r : ndref) (v : ndarray) (s : Store) : Store :=
  match r with
  | Arr a => mkStore (update (arrays s) a v) (frames s)
  | Col f nm =>
      match nth_error (frames s) f with
      | Some df => mkStore (arrays s) (update (frames s) f (replace_column df nm v))
      | None => s
      end
  | IArr a => mkStore (update (arrays s) a v) (frames s)
  end.

Definition load (r : ndref) : M ndarray :=
  fun s => match read r s with
           | Some v => (Ok v, s)
           | None => (Raise KeyError, s)
           end.

Definition store (r : ndref) (v : ndarray) : M unit :=
  fun s => (Ok tt, write r v s).

(** A new array object. *)
Definition alloc (v : ndarray) : M ndref :=
  fun s => (Ok (Arr (length (arrays s))), mkStore (arrays s ++ [v]) (frames s)).

Definition load_frame (f : nat) : M DataFrame :=
  fun s => match nth_error (frames s) f with
           | Some df => (Ok df, s)
           | None => (Raise KeyError, s)
           end.

Definition store_frame (f : nat) (df : DataFrame) : M unit :=
  fun s => (Ok tt, mkStore (arrays s) (update (frames s) f df)).

(** A new frame object. *)
Definition alloc_frame (df : DataFrame) : M nat :=
  fun s => (Ok (length (frames s)), mkStore (arrays s) (frames s ++ [df])).

(** [X[nm]] on a frame: the series of that column, [KeyError] without it. *)
Definition getitem (X : nat) (nm : label) : M arraylike :=
  df <- load_frame X ;;
  if has_column df nm then ret (NdArray (Col X nm)) else raise KeyError.

(** [X[nm] = arr] on a frame. *)
Definition setitem (X : nat) (nm : label) (arr : ndref) : M unit :=
  v <- load arr ;;
  df <- load_frame X ;;
  store_frame X (set_column df nm v).

(** ** numpy *)

(** [np.asarray]: an array is returned as it is, the same object; a list
    is copied into a new array. *)
Definition np_asarray (x : arraylike) : M ndref :=
  match x with
  | NdArray r => ret r
  | PyList l => alloc l
  end.

(** Broadcast arithmetic of an array with a scalar: each builds a new
    array value.  [vsqr] is [** 2.], the square, whose base may be
    negative. *)
Definition vadd (v : ndarray) (c : R) : ndarray := map (fun x => x + c) v.
Definition vsub (v : ndarray) (c : R) : ndarray := map (fun x => x - c) v.
Definition vdiv (v : ndarray) (c : R) : ndarray := map (fun x => x / c) v.
Definition vpow (v : ndarray) (p : R) : ndarray := map (fun x => np_power x p) v.
Definition vsqr (v : ndarray) : ndarray := map (fun x => x ^ 2) v.
Definition vneg (v : ndarray) : ndarray := map Ropp v.
Definition vlog (v : ndarray) : ndarray := map np_log v.
Definition np_maximum (v : ndarray) (c : R) : ndarray := map (fun x => Rmax x c) v.

Definition np_sum (v : ndarray) : R := fold_right Rplus 0 v.
Definition np_mean (v : ndarray) : R := np_sum v / INR (length v).

(** [np.min]: [ValueError] on an array of size zero. *)
Definition np_min (v : ndarray) : M R :=
  match v with
  | [] => raise ValueError
  | x :: v' => ret (fold_left Rmin v' x)
  end.

(** [y >= 0], [~mask] and [mask & b] for a scalar boolean [b]. *)
Definition vge (v : ndarray) (c : R) : list bool := map (fun x => Rgeb x c) v.
Definition mask_not (m : list bool) : list bool := map negb m.
Definition mask_and (m : list bool) (b : bool) : list bool := map (fun a => a && b) m.

(** [y[mask]]: a new array of the selected elements. *)
Fixpoint take_mask (v : ndarray) (m : list bool) : ndarray :=
  match v, m with
  | x :: v', b :: m' => if b then x :: take_mask v' m' else take_mask v' m'
  | _, _ => []
  end.

(** [y[mask] = vals] on the contents of the buffer: the selected positions
    take the values of [vals] in order. *)
Fixpoint put_mask (v : ndarray) (m : list bool) (vals : ndarray) : ndarray :=
  match v, m with
  | x :: v', true :: m' =>
      match vals with
      | w :: vals' => w :: put_mask v' m' vals'
      | [] => x :: put_mask v' m' []
      end
  | x :: v', false :: m' => x :: put_mask v' m' vals
  | _, _ => v
  end.

Definition getmask (y : ndref) (m : list bool) : M ndarray :=
  v <- load y ;; ret (take_mask v m).

(** [vals] as [y[mask] = vals] stores them: cast to the dtype of [y]. *)
Definition astype (y : ndref) (vals : ndarray) : ndarray :=
  match y with
  | IArr _ => map Rtrunc vals
  | _ => vals
  end.

Definition setmask (y : ndref) (m : list bool) (vals : ndarray) : M unit :=
  v <- load y ;; store y (put_mask v m (astype y vals)).

(** [arr += c]: in place.  ([c] has the dtype of the array: the shift
    [np.abs(min) + 1] of an int64 array is an int64.) *)
Definition iadd (y : ndref) (c : R) : M unit :=
  v <- load y ;; store y (vadd v c).

(** ** The Yeo-Johnson transform and its log-likelihood *)

Definition _yj_transform_y (y : arraylike) (lam : R) : M ndref :=
  (* should already be a vec, but just gotta be sure *)
  y <- np_asarray y ;;
  (* need some different masks... *)
  y0 <- load y ;;
  let gte_zero_mask := vge y0 0 in
  let lt_zero_mask := mask_not gte_zero_mask in
  (* lambda "masks" (just scalar booleans...) *)
  let lam_gt_zero := Rgtb lam ZERO in
  let lam_eq_zero := negb lam_gt_zero in
  let lam_eq_two := Reqb lam 2 in
  let lam_not_two := negb lam_eq_two in
  (* Case 1: x >= 0 and lambda is not 0 *)
  let c1_mask := mask_and gte_zero_mask lam_gt_zero in
  y1 <- getmask y c1_mask ;;
  setmask y c1_mask (vdiv (vsub (vpow (vadd y1 1) lam) 1) lam) ;;;
  (* Case 2: x >= 0 and lambda IS 0 *)
  let c2_mask := mask_and gte_zero_mask lam_eq_zero in
  y2 <- getmask y c2_mask ;;
  setmask y c2_mask (vlog (vadd y2 1)) ;;;
  (* Case 3: x < 0 and lambda is not two *)
  let c3_mask := mask_and lt_zero_mask lam_not_two in
  let two_min_lam := 2 - lam in
  y3 <- getmask y c3_mask ;;
  setmask y c3_mask
    (vdiv (vneg (vsub (vpow (vadd (vneg y3) 1) two_min_lam) 1)) two_min_lam) ;;;
  (* Case 4: x < 0 and lam == 2. *)
  let c4_mask := mask_and lt_zero_mask lam_eq_two in
  y4 <- getmask y c4_mask ;;
  setmask y c4_mask (vneg (vlog (vadd (vneg y4) 1))) ;;;
  ret y.

Definition _yj_llf (data : arraylike) (lmb : R) : M scalar :=
  (* make into a numpy array, if not already one *)
  data <- np_asarray data ;;
  d0 <- load data ;;
  let n := INR (length d0) in
  (* transform the vector *)
  y_trans <- _yj_transform_y (NdArray data) lmb ;;
  d1 <- load data ;;
  y1 <- load y_trans ;;
  min_d <- np_min d1 ;;
  min_y <- np_min y1 ;;
  (if Rltb min_d ZERO then iadd data (Rabs min_d + 1) else ret tt) ;;;
  (* Same goes for Y *)
  (if Rltb min_y ZERO then iadd y_trans (Rabs min_y + 1) else ret tt) ;;;
  (* Compute mean on potentially shifted data *)
  y2 <- load y_trans ;;
  let y_mean := np_mean y2 in
  let var := np_sum (vdiv (vsqr (vsub y2 y_mean)) n) in
  if Reqb 0 var then ret NaN
  else
    d2 <- load data ;;
    let llf := (lmb - 1) * np_sum (vlog d2) in
    let llf := llf - n / 2 * np_log var in
    ret (Num llf).

(** The transform of one value, as the old per-element method of the source
    (the commented [_yj_trans_single_x]) wrote it, with the masks' test
    [lam > ZERO] for "lambda is not 0". *)
Definition yj_elem (lam x : R) : R :=
  if Rgeb x 0 then
    if Rgtb lam ZERO then (np_power (x + 1) lam - 1) / lam
    else np_log (x + 1)
  else
    if Reqb lam 2 then - np_log (- x + 1)
    else - (np_power (- x + 1) (2 - lam) - 1) / (2 - lam).

(** ** What [_yj_llf] computes *)

(** The minimum of a non-empty array, as [np_min] folds it. *)
Definition Rmin_list (v : ndarray) : R :=
  match v with
  | [] => 0
  | x :: v' => fold_left Rmin v' x
  end.

(** The contents of the one buffer that [data] and [y_trans] both name when
    [_yj_llf] reaches its logarithm: the transformed values, shifted once
    through the name [data] and once more through the name [y_trans]. *)
Definition yj_llf_buffer (lam : R) (v : ndarray) : ndarray :=
  let t := map (yj_elem lam) v in
  let m := Rmin_list t in
  if Rltb m ZERO then vadd (vadd t (Rabs m + 1)) (Rabs m + 1) else t.

(** The score [_yj_llf] returns from that buffer. *)
Definition yj_llf_score (lam : R) (buf : ndarray) : scalar :=
  let n := INR (length buf) in
  let var := np_sum (vdiv (vsqr (vsub buf (np_mean buf))) n) in
  if Reqb 0 var then NaN
  else Num ((lam - 1) * np_sum (vlog buf) - n / 2 * np_log var).

(** The likelihood as the specification words it: the logarithm is taken
    of the raw [data], the variance of the transformed [y], each shifted on
    its own by [|min| + 1] when its minimum is below [ZERO]. *)
Definition shift_if_low (v : ndarray) : ndarray :=
  if Rltb (Rmin_list v) ZERO then vadd v (Rabs (Rmin_list v) + 1) else v.

Definition population_variance (y : ndarray) : R :=
  np_sum (map (fun x => (x - np_mean y) ^ 2) y) / INR (length y).

Definition yj_llf_spec (data : ndarray) (lam : R) : scalar :=
  let y := shift_if_low (map (yj_elem lam) data) in
  let var := population_variance y in
  if Reqb var 0 then NaN
  else Num ((lam - 1) * np_sum (map ln (shift_if_low data))
            - INR (length data) / 2 * ln var).

(** The four rows of the table of the Yeo-Johnson transform: the condition
    of each row and the value it gives. *)
Inductive yj_branch : Type := Case1 | Case2 | Case3 | Case4.

Definition in_branch (lam x : R) (b : yj_branch) : Prop :=
  match b with
  | Case1 => x >= 0 /\ lam > ZERO
  | Case2 => x >= 0 /\ lam <= ZERO
  | Case3 => x < 0 /\ lam <> 2
  | Case4 => x < 0 /\ lam = 2
  end.

Definition branch_value (lam x : R) (b : yj_branch) : R :=
  match b with
  | Case1 => (Rpower (x + 1) lam - 1) / lam
  | Case2 => ln (x + 1)
  | Case3 => - (Rpower (- x + 1) (2 - lam) - 1) / (2 - lam)
  | Case4 => - ln (- x + 1)
  end.

(** The values a float array-like argument holds when a function receives
    it: those of a float64 array or series, or of a list of floats.  An
    int64 array is no float array-like. *)
Definition contents (y : arraylike) (s : Store) : option ndarray :=
  match y with
  | NdArray (IArr _) => None
  | NdArray r => read r s
  | PyList l => Some l
  end.

(** ** validation.py *)

(** The argument [X] of [fit] and [transform]: a frame, some other iterable
    of records, or an object that is not iterable. *)
Inductive pyobj : Type :=
| PFrame (f : nat)
| PRecords (rows : list (list R))
| PScalar.

(** The constructor argument [cols]: [None], one label that is not
    iterable, or an iterable of labels. *)
Inductive cols_arg : Type :=
| ColsNone
| ColsOne (c : label)
| ColsMany (cs : list label).

(** Modelled from the spec: [is_iterable] of [skoot/utils/iterables.py] is
    not among the sources.  The table validator "fails if the input cannot
    be interpreted as a table": an iterable of records can, a scalar
    cannot; for [cols], a list of labels is iterable and a single label is
    not. *)
Definition is_iterable_X (X : pyobj) : bool :=
  match X with
  | PScalar => false
  | _ => true
  end.

(** [copy.deepcopy(cols) if is_iterable(cols) else [cols]], then [tolist]. *)
Definition cols_list (cols : cols_arg) : list label :=
  match cols with
  | ColsNone => []
  | ColsOne c => [c]
  | ColsMany cs => cs
  end.

(** [pd.DataFrame.from_records] on records of equal length: column [j] of
    the records gets label [j]. *)
Definition from_records (rows : list (list R)) : DataFrame :=
  map (fun j => (LInt j, map (fun row => nth j row 0) rows))
      (seq 0 (length (hd [] rows))).

(** Records of unequal length.  pandas fills the cells they leave open
    with NaN, which no frame here can hold: in [from_records] those cells
    read 0, and [check_dataframe] counts them as not finite. *)
Definition ragged (rows : list (list R)) : bool :=
  negb (forallb (fun row => (length row =? length (hd [] rows))%nat) rows).

Definition mem (c : label) (cs : list label) : bool := existsb (label_eqb c) cs.

(** Every cell is a real number here, so [np.isfinite] has one answer: a
    frame with a NaN or an infinite cell, on which the check of
    [check_dataframe] raises, is no frame of this model.  The one way the
    model meets NaN cells is [from_records] on records of unequal length,
    which [ragged] recognises. *)
Definition np_isfinite (x : R) : bool := true.

(** [X[cols].apply(lambda x: (~np.isfinite(x)).sum()).sum()] *)
Definition count_nonfinite (df : DataFrame) (cols : list label) : nat :=
  list_sum
    (map (fun c => match get_column df c with
                   | Some v => length (filter (fun x => negb (np_isfinite x)) v)
                   | None => 0%nat
                   end) cols).

Definition check_dataframe (X : pyobj) (cols : cols_arg)
    (assert_all_finite column_diff : bool)
  : M (nat * list label * option (list label)) :=
  let nan_cells := match X with
                   | PRecords rows => ragged rows
                   | _ => false
                   end in
  (* determine if it's currently a DF or if it needs to be cast as one. *)
  X <- match X with
       | PFrame f => ret f
       | _ =>
           if negb (is_iterable_X X) then raise TypeError
           else
             (* if columns was defined, we have to break *)
             match cols, X with
             | ColsNone, PRecords rows => alloc_frame (from_records rows)
             | _, _ => raise ValueError
             end
       end ;;
  df <- load_frame X ;;
  (* if columns are provided, check... *)
  let present_columns := columns df in
  cols <- match cols with
          | ColsNone => ret (columns df)
          | _ =>
              let cols := cols_list cols in
              if existsb (fun c => negb (mem c present_columns)) cols
              then raise ValueError
              else ret cols
          end ;;
  (* if specified, check that all values are finite *)
  (if assert_all_finite && ((0 <? count_nonfinite df cols)%nat || nan_cells)
   then raise ValueError else ret tt) ;;;
  (* get the copy of X to return *)
  X_copy <- alloc_frame df ;;
  (* if column diff is defined, we need to get it... *)
  if column_diff
  then ret (X_copy, cols,
            Some (filter (fun c => negb (mem c cols)) present_columns))
  else ret (X_copy, cols, None).

Definition validate_multiple_rows (frame : nat) : M unit :=
  df <- load_frame frame ;;
  let n_samples := n_rows df in
  if (n_samples <? 2)%nat then raise ValueError else ret tt.

Definition validate_test_set_columns (fit_columns test_columns : list label)
  : M unit :=
  let present_cols := test_columns in
  if forallb (fun t => mem t present_cols) fit_columns
  then ret tt
  else raise ValueError.

(** ** The transformers *)

Inductive variant : Type :=
| BoxCox (min_value : R)
| YeoJohnson (brack : list R).

(** The attributes of a transformer object: [cols] and [as_df], kept by
    the base class [BasePDTransformer], [n_jobs], the parameter of the
    variant, and [lambda_] and [fit_cols_], missing until [_fit] sets
    them. *)
Record Transformer : Type := mkTransformer {
  cols : cols_arg;
  n_jobs : Z;
  as_df : bool;
  params : variant;
  lambda_ : option (list R);
  fit_cols_ : option (list label)
}.

(** What [transform] returns: the frame, or [X.values] when [as_df] is off. *)
Inductive output : Type :=
| OutFrame (f : nat)
| OutValues (m : list (list R)).

Module BoxCoxTransformer.

Definition _transform_vector (min_value : R) (vec : arraylike) (lam : R)
  : M ndref :=
  (* make a np array, make sure we've floored *)
  vec <- np_asarray vec ;;
  v <- load vec ;;
  let y := np_maximum v min_value in
  (* if lam is not "zero", y gets the power treatment: *)
  if Rgtb lam ZERO then alloc (vdiv (vsub (vpow y lam) 1) lam)
  (* otherwise, it gets logged *)
  else alloc (vlog y).

End BoxCoxTransformer.

Module YeoJohnsonTransformer.

Definition _transform_vector (y : arraylike) (lam : R) : M ndref :=
  _yj_transform_y y lam.

End YeoJohnsonTransformer.

(** The abstract [_transform_vector], resolved on the class of [self]. *)
Definition _transform_vector (self : Transformer) (y : arraylike) (lam : R)
  : M ndref :=
  match params self with
  | BoxCox min_value => BoxCoxTransformer._transform_vector min_value y lam
  | YeoJohnson _ => YeoJohnsonTransformer._transform_vector y lam
  end.

(** [sklearn]'s [check_is_fitted(self, 'lambda_')]. *)
Definition check_is_fitted (self : Transformer) : M unit :=
  match lambda_ self with
  | Some _ => ret tt
  | None => raise NotFittedError
  end.

(** Reading an attribute that [_fit] has not set yet. *)
Definition getattr {A} (a : option A) : M A :=
  match a with
  | Some x => ret x
  | None => raise AttributeError
  end.

(** [joblib]'s [Parallel(n_jobs)(delayed(f)(x) for x in xs)]: the results
    come back in the order of the tasks; here the tasks run one after the
    other, as they do with [n_jobs = 1]. *)
Definition Parallel {A B} (n_jobs : Z) (f : A -> M B) (xs : list A) : M (list B) :=
  mapM f xs.

(** [self.lambda_ = ...] and [self.fit_cols_ = ...] *)
Definition set_lambda_ (self : Transformer) (l : list R) : Transformer :=
  mkTransformer (cols self) (n_jobs self) (as_df self) (params self)
                (Some l) (fit_cols_ self).

Definition set_fit_cols_ (self : Transformer) (c : list label) : Transformer :=
  mkTransformer (cols self) (n_jobs self) (as_df self) (params self)
                (lambda_ self) (Some c).

Module _BaseSkewnessTransformer.

Definition _fit (self : Transformer) (X : pyobj)
    (estimation_function : arraylike -> M R) : M Transformer :=
  (* check on state of X and cols (all cols need to be finite!) *)
  '(X, cols, _) <- check_dataframe X (cols self) true false ;;
  (* ensure enough rows *)
  validate_multiple_rows X ;;;
  (* Now estimate the lambdas in parallel *)
  let n_jobs := n_jobs self in
  lambda_ <- Parallel n_jobs
               (fun i => Xi <- getitem X i ;; estimation_function Xi) cols ;;
  (* set the fit cols *)
  ret (set_fit_cols_ (set_lambda_ self lambda_) cols).

Definition transform (self : Transformer) (X : pyobj) : M output :=
  check_is_fitted self ;;;
  (* check on state of X and cols *)
  '(X, _, _) <- check_dataframe X (cols self) true false ;;
  (* validate the test columns *)
  cols <- getattr (fit_cols_ self) ;;
  df <- load_frame X ;;
  validate_test_set_columns cols (columns df) ;;;
  lambdas_ <- getattr (lambda_ self) ;;
  (* do transformations *)
  forM_ (combine cols lambdas_)
        (fun '(nm, lam) =>
           Xnm <- getitem X nm ;;
           v <- _transform_vector self Xnm lam ;;
           setitem X nm v) ;;;
  if as_df self then ret (OutFrame X)
  else (df <- load_frame X ;; ret (OutValues (values df))).

End _BaseSkewnessTransformer.

(** ** The estimators

    [scipy.stats.boxcox] and [scipy.optimize.brent] are library code; the
    estimators are written over whatever the two return. *)
Section Estimators.

(** [boxcox(y, lmbda=None)[1]]: the maximising lambda, or an exception. *)
Variable scipy_boxcox_lmax : ndarray -> result R.

(** [optimize.brent(func, brack=brck)]: calls the objective any number of
    times, each call running against the store as it then is. *)
Variable optimize_brent : (R -> M scalar) -> list R -> M R.

Definition _bc_est_lam (y : arraylike) (min_value : R) : M R :=
  (* ensure is array, floor at min_value *)
  y <- np_asarray y ;;
  v <- load y ;;
  let y := np_maximum v min_value in
  (* Use scipy's log-likelihood estimator *)
  fun s => (scipy_boxcox_lmax y, s).

Definition _yj_est_lam (y : arraylike) (brack : list R) : M R :=
  y <- np_asarray y ;;
  (* Use MLE to compute the optimal YJ parameter *)
  let _eval_mle := fun (lmb : R) (data : arraylike) =>
    (* Function to minimize *)
    llf <- _yj_llf data lmb ;; ret (sneg llf) in
  let _mle_opt := fun (i : arraylike) (brck : list R) =>
    optimize_brent (fun lmb => _eval_mle lmb i) brck in
  _mle_opt (NdArray y) brack.

Definition _BCEstimator (min_val : R) (y : arraylike) : M R :=
  _bc_est_lam y min_val.

Definition _YJEstimator (brack : list R) (y : arraylike) : M R :=
  _yj_est_lam y brack.

(** [BoxCoxTransformer.fit] and [YeoJohnsonTransformer.fit] *)
Definition fit (self : Transformer) (X : pyobj) : M Transformer :=
  match params self with
  | BoxCox min_value =>
      _BaseSkewnessTransformer._fit self X (_BCEstimator min_value)
  | YeoJohnson brack =>
      _BaseSkewnessTransformer._fit self X (_YJEstimator brack)
  end.

End Estimators.

(** ** Vocabulary of the statements *)

(** The Box-Cox transform of one value. *)
Definition bc_elem (min_value lam x : R) : R :=
  let y := Rmax x min_value in
  if Rgtb lam ZERO then (np_power y lam - 1) / lam else np_log y.

(** The piecewise transform of one value under the variant of [self]. *)
Definition elem_transform (self : Transformer) (lam x : R) : R :=
  match params self with
  | BoxCox min_value => bc_elem min_value lam x
  | YeoJohnson _ => yj_elem lam x
  end.

(** The frame the loop of [transform] leaves behind: one replacement per
    pair of [zip(cols, lambdas_)], each reading the column as the
    replacements before it left it. *)
Fixpoint apply_pairs (self : Transformer) (pairs : list (label * R))
    (df : DataFrame) : DataFrame :=
  match pairs with
  | [] => df
  | (nm, lam) :: pairs' =>
      match get_column df nm with
      | Some v =>
          apply_pairs self pairs'
            (replace_column df nm (map (elem_transform self lam) v))
      | None => apply_pairs self pairs' df
      end
  end.

(** The table an argument [X] stands for. *)
Definition frame_of (X : pyobj) (s : Store) : option DataFrame :=
  match X with
  | PFrame f => nth_error (frames s) f
  | PRecords rows => Some (from_records rows)
  | PScalar => None
  end.

(** The target columns [check_dataframe] resolves. *)
Definition resolve_cols (cols : cols_arg) (df : DataFrame) : list label :=
  match cols with
  | ColsNone => columns df
  | _ => cols_list cols
  end.

(** [estimated est X cols s lams s']: starting in store [s], the estimator
    applied to the series [X[c]] of each label of [cols], in that order,
    returned the lambdas [lams], in that order, and left store [s']. *)
Inductive estimated (est : arraylike -> M R) (X : nat)
  : list label -> Store -> list R -> Store -> Prop :=
| estimated_nil s : estimated est X [] s [] s
| estimated_cons c cs lam lams s s1 s2 :
    est (NdArray (Col X c)) s = (Ok lam, s1) ->
    estimated est X cs s1 lams s2 ->
    estimated est X (c :: cs) s (lam :: lams) s2.

(** One turn of the loop of [transform]:
    [X[nm] = self._transform_vector(X[nm], lam)]. *)
Definition loop_body (self : Transformer) (X : nat) (p : label * R) : M unit :=
  let '(nm, lam) := p in
  Xnm <- getitem X nm ;;
  v <- _transform_vector self Xnm lam ;;
  setitem X nm v.

(** ** Example tables and transformers *)

Definition col_a : label := LStr "a".
Definition col_b : label := LStr "b".

(** Two columns of two rows; one column of two rows; one column of one row. *)
Definition table_ab : DataFrame := [(col_a, [0; 1]); (col_b, [5; 6])].
Definition table_a2 : DataFrame := [(col_a, [1; 2])].
Definition table_a1 : DataFrame := [(col_a, [3])].

Definition store_ab : Store := mkStore [] [table_ab].
Definition store_a2 : Store := mkStore [] [table_a2].
Definition store_a1 : Store := mkStore [] [table_a1].

(** [YeoJohnsonTransformer(cols=['a'])], not fitted and fitted with
    lambda 2. *)
Definition yj_on_a : Transformer :=
  mkTransformer (ColsMany [col_a]) 1 true (YeoJohnson [-2; 2]) None None.

Definition yj_on_a_fitted : Transformer :=
  mkTransformer (ColsMany [col_a]) 1 true (YeoJohnson [-2; 2])
                (Some [2]) (Some [col_a]).

(** [BoxCoxTransformer(cols=['a', 'a'], min_value=0.5)], not fitted and
    fitted with lambda 1 for both entries. *)
Definition bc_on_a_a : Transformer :=
  mkTransformer (ColsMany [col_a; col_a]) 1 true (BoxCox (1 / 2)) None None.

Definition bc_on_a_a_fitted : Transformer :=
  mkTransformer (ColsMany [col_a; col_a]) 1 true (BoxCox (1 / 2))
                (Some [1; 1]) (Some [col_a; col_a]).

(** [BoxCoxTransformer(cols=['a'], min_value=0.5)], fitted with lambda 1. *)
Definition bc_on_a_fitted : Transformer :=
  mkTransformer (ColsMany [col_a]) 1 true (BoxCox (1 / 2))
                (Some [1]) (Some [col_a]).

(** Library estimators that answer lambda 1 on every column. *)
Definition boxcox_answers_1 : ndarray -> result R := fun _ => Ok 1.
Definition brent_answers_1 : (R -> M scalar) -> list R -> M R := fun _ _ => ret 1.

(** ** Vocabulary of the further statements *)

(** The values of column [c] of a frame that has it. *)
Definition column_values (df : DataFrame) (c : label) : ndarray :=
  match get_column df c with
  | Some v => v
  | None => []
  end.

(** The results of tasks run one after the other: the list of their
    values, or the first exception. *)
Fixpoint sequence_results (rs : list (result R)) : result (list R) :=
  match rs with
  | [] => Ok []
  | Ok a :: rs' =>
      match sequence_results rs' with
      | Ok l => Ok (a :: l)
      | Raise e => Raise e
      end
  | Raise e :: _ => Raise e
  end.

(** A table: every column has [n] rows. *)
Definition rectangular (n : nat) (df : DataFrame) : Prop :=
  Forall (fun c => length (snd c) = n) df.

(** [YeoJohnsonTransformer(cols=['b'])], not fitted, and a transformer
    constructed without [cols] whose model names column ['b']. *)
Definition yj_on_b : Transformer :=
  mkTransformer (ColsMany [col_b]) 1 true (YeoJohnson [-2; 2]) None None.


(** [BoxCoxTransformer(cols=['a'], min_value=0.5)], not fitted. *)
Definition bc_on_a : Transformer :=
  mkTransformer (ColsMany [col_a]) 1 true (BoxCox (1 / 2)) None None.

(** ** Deciding comparisons of reals *)

Lemma Rltb_true a b : a < b -> Rltb a b = true.
Proof. unfold Rltb; destruct (Rlt_dec a b); tauto. Qed.

Lemma Rltb_false a b : ~ a < b -> Rltb a b = false.
Proof. unfold Rltb; destruct (Rlt_dec a b); tauto. Qed.

Lemma Rgtb_true a b : a > b -> Rgtb a b = true.
Proof. unfold Rgtb; destruct (Rgt_dec a b); tauto. Qed.

Lemma Rgtb_false a b : ~ a > b -> Rgtb a b = false.
Proof. unfold Rgtb; destruct (Rgt_dec a b); tauto. Qed.

Lemma Rgeb_true a b : a >= b -> Rgeb a b = true.
Proof. unfold Rgeb; destruct (Rge_dec a b); tauto. Qed.

Lemma Rgeb_false a b : ~ a >= b -> Rgeb a b = false.
Proof. unfold Rgeb; destruct (Rge_dec a b); tauto. Qed.

Lemma Reqb_true a b : a = b -> Reqb a b = true.
Proof. unfold Reqb; destruct (Req_dec_T a b); tauto. Qed.

Lemma Reqb_false a b : a <> b -> Reqb a b = false.
Proof. unfold Reqb; destruct (Req_dec_T a b); tauto. Qed.

Lemma ZERO_pos : 0 < ZERO.
Proof. unfold ZERO; apply Rdiv_lt_0_compat; [lra | apply pow_lt; lra]. Qed.

Lemma ZERO_lt_1 : ZERO < 1.
Proof.
  unfold ZERO.
  assert (H : 1 < 10 ^ 16) by (apply Rlt_pow_R1; [lra | lia]).
  apply Rmult_lt_reg_r with (10 ^ 16); [lra|].
  field_simplify; lra.
Qed.

Lemma np_power_1_l p : np_power 1 p = 1.
Proof. unfold np_power, Rpower; now rewrite ln_1, Rmult_0_r, exp_0. Qed.

Lemma np_power_sq x : 0 < x -> np_power x 2 = x * x.
Proof.
  intros Hx; unfold np_power.
  replace 2 with (INR 2) by (simpl; lra).
  rewrite Rpower_pow by assumption; simpl; ring.
Qed.

(** ** Store lemmas *)

Lemma nth_error_update_same {A} (l : list A) i a x :
  nth_error l i = Some x -> nth_error (update l i a) i = Some a.
Proof.
  revert i; induction l as [|y l IH]; intros [|i]; simpl; try discriminate; auto.
Qed.

Lemma update_update {A} (l : list A) i a b :
  update (update l i a) i b = update l i b.
Proof.
  revert i; induction l as [|y l IH]; intros [|i]; simpl; auto.
  now rewrite IH.
Qed.

Lemma update_same {A} (l : list A) i a :
  nth_error l i = Some a -> update l i a = l.
Proof.
  revert i; induction l as [|y l IH]; intros [|i]; simpl; try discriminate.
  - now intros [= ->].
  - intros H; now rewrite IH.
Qed.

Lemma label_eqb_refl a : label_eqb a a = true.
Proof.
  destruct a; simpl; [apply String.eqb_refl | apply Nat.eqb_refl].
Qed.

Lemma label_eqb_eq a b : label_eqb a b = true <-> a = b.
Proof.
  destruct a as [s|n], b as [t|m]; simpl.
  - rewrite String.eqb_eq; split; congruence.
  - split; discriminate.
  - split; discriminate.
  - rewrite Nat.eqb_eq; split; congruence.
Qed.

Lemma label_eqb_sym a b : label_eqb a b = label_eqb b a.
Proof.
  destruct (label_eqb a b) eqn:E.
  - apply label_eqb_eq in E; subst; now rewrite label_eqb_refl.
  - destruct (label_eqb b a) eqn:E'; auto.
    apply label_eqb_eq in E'; subst; now rewrite label_eqb_refl in E.
Qed.

Lemma get_replace_same df nm v w :
  get_column df nm = Some v -> get_column (replace_column df nm w) nm = Some w.
Proof.
  induction df as [|[c u] df IH]; simpl; try discriminate.
  destruct (label_eqb c nm); auto.
Qed.

Lemma get_replace_other df nm nm' w :
  label_eqb nm nm' = false ->
  get_column (replace_column df nm w) nm' = get_column df nm'.
Proof.
  intros H; induction df as [|[c u] df IH]; simpl; auto.
  destruct (label_eqb c nm') eqn:E; auto.
  destruct (label_eqb c nm) eqn:E'; auto.
  apply label_eqb_eq in E, E'; subst; now rewrite label_eqb_refl in H.
Qed.

Lemma replace_replace df nm v w :
  replace_column (replace_column df nm v) nm w = replace_column df nm w.
Proof.
  induction df as [|[c u] df IH]; simpl; auto.
  rewrite IH; now destruct (label_eqb c nm).
Qed.

Lemma columns_replace df nm v : columns (replace_column df nm v) = columns df.
Proof.
  induction df as [|[c u] df IH]; simpl; auto.
  now f_equal.
Qed.

Lemma has_column_get df nm :
  has_column df nm = true <-> exists v, get_column df nm = Some v.
Proof.
  unfold has_column; induction df as [|[c u] df IH]; simpl.
  - split; [discriminate | intros [v H]; discriminate].
  - rewrite (label_eqb_sym nm c); destruct (label_eqb c nm); simpl.
    + split; eauto.
    + exact IH.
Qed.

Lemma read_write_same r v w s :
  read r s = Some v -> read r (write r w s) = Some w.
Proof.
  destruct r as [a|f nm|a]; simpl.
  - apply nth_error_update_same.
  - destruct (nth_error (frames s) f) as [df|] eqn:E; try discriminate.
    intros H; simpl.
    rewrite (nth_error_update_same _ _ _ _ E).
    eapply get_replace_same; eauto.
  - apply nth_error_update_same.
Qed.

Lemma write_write r v w s : write r w (write r v s) = write r w s.
Proof.
  destruct r as [a|f nm|a]; simpl.
  - now rewrite update_update.
  - destruct (nth_error (frames s) f) as [df|] eqn:E; simpl.
    + rewrite (nth_error_update_same _ _ _ _ E); simpl.
      now rewrite update_update, replace_replace.
    + now rewrite E.
  - now rewrite update_update.
Qed.

Lemma load_ok r v s : read r s = Some v -> load r s = (Ok v, s).
Proof. unfold load; now intros ->. Qed.

Lemma getmask_ok r m v s :
  read r s = Some v -> getmask r m s = (Ok (take_mask v m), s).
Proof. intros H; unfold getmask, bind; now rewrite (load_ok _ _ _ H). Qed.

Lemma setmask_ok r m vals v s :
  read r s = Some v ->
  setmask r m vals s = (Ok tt, write r (put_mask v m (astype r vals)) s).
Proof. intros H; unfold setmask, bind; now rewrite (load_ok _ _ _ H). Qed.

(** A float array-like that is an array: it can be read, and what is
    assigned into it is stored as it is. *)
Lemma contents_float r v s :
  contents (NdArray r) s = Some v ->
  read r s = Some v /\ forall w, astype r w = w.
Proof. destruct r; simpl; intros H; try discriminate; auto. Qed.

Lemma iadd_ok r c v s :
  read r s = Some v -> iadd r c s = (Ok tt, write r (vadd v c) s).
Proof. intros H; unfold iadd, bind; now rewrite (load_ok _ _ _ H). Qed.

(** ** Masked assignment is a map *)

Lemma put_take_map (g f : R -> R) (p : R -> bool) (v : ndarray) :
  put_mask (map g v) (map p v) (map f (take_mask (map g v) (map p v)))
  = map (fun x => if p x then f (g x) else g x) v.
Proof.
  induction v as [|x v IH]; simpl; auto.
  destruct (p x); simpl; now rewrite IH.
Qed.

Lemma put_take_map0 (f : R -> R) (p : R -> bool) (v : ndarray) :
  put_mask v (map p v) (map f (take_mask v (map p v)))
  = map (fun x => if p x then f x else x) v.
Proof.
  induction v as [|x v IH]; simpl; auto.
  destruct (p x); simpl; now rewrite IH.
Qed.

Lemma yj_masks_elem (T : R -> R) (lam x : R) :
  let g1 := fun x => if Rgeb x 0 && Rgtb lam ZERO
                     then T ((np_power (x + 1) lam - 1) / lam) else x in
  let g2 := fun x => if Rgeb x 0 && negb (Rgtb lam ZERO)
                     then T (np_log (g1 x + 1)) else g1 x in
  let g3 := fun x => if negb (Rgeb x 0) && negb (Reqb lam 2)
                     then T (- (np_power (- g2 x + 1) (2 - lam) - 1) / (2 - lam))
                     else g2 x in
  (if negb (Rgeb x 0) && Reqb lam 2 then T (- np_log (- g3 x + 1)) else g3 x)
  = T (yj_elem lam x).
Proof.
  unfold yj_elem; simpl.
  destruct (Rgeb x 0), (Rgtb lam ZERO), (Reqb lam 2); reflexivity.
Qed.

(** What [_yj_transform_y] does to an array it is handed, whatever its
    dtype: the buffer itself is overwritten, each cell with the
    per-element transform of what it held, cast by [T] as the buffer casts
    what is assigned into it; and the very same reference comes back. *)
Lemma _yj_transform_y_cast
    (T : R -> R) (r : ndref) (lam : R) (v : ndarray) (s : Store) :
  (forall w, astype r w = map T w) ->
  read r s = Some v ->
  _yj_transform_y (NdArray r) lam s
  = (Ok r, write r (map (fun x => T (yj_elem lam x)) v) s).
Proof.
  intros HT Hr.
  unfold _yj_transform_y, np_asarray.
  unfold bind at 1, ret at 1.
  unfold bind at 1; rewrite (load_ok _ _ _ Hr).
  unfold vge, mask_not, mask_and; rewrite !map_map.
  (* case 1 *)
  unfold bind at 1; rewrite (getmask_ok _ _ _ _ Hr).
  unfold bind at 1; rewrite (setmask_ok _ _ _ _ _ Hr), HT.
  unfold vdiv, vsub, vpow, vadd, vneg, vlog; rewrite !map_map.
  rewrite put_take_map0.
  set (g1 := fun x : R => if Rgeb x 0 && Rgtb lam ZERO
                          then T ((np_power (x + 1) lam - 1) / lam) else x).
  pose proof (read_write_same r v (map g1 v) s Hr) as H1.
  (* case 2 *)
  unfold bind at 1; rewrite (getmask_ok _ _ _ _ H1).
  unfold bind at 1; rewrite (setmask_ok _ _ _ _ _ H1), HT.
  rewrite !map_map, write_write.
  rewrite (put_take_map g1).
  set (g2 := fun x : R => if Rgeb x 0 && negb (Rgtb lam ZERO)
                          then T (np_log (g1 x + 1)) else g1 x).
  pose proof (read_write_same r v (map g2 v) s Hr) as H2.
  (* case 3 *)
  unfold bind at 1; rewrite (getmask_ok _ _ _ _ H2).
  unfold bind at 1; rewrite (setmask_ok _ _ _ _ _ H2), HT.
  rewrite !map_map, write_write.
  rewrite (put_take_map g2).
  set (g3 := fun x : R => if negb (Rgeb x 0) && negb (Reqb lam 2)
                          then T (- (np_power (- g2 x + 1) (2 - lam) - 1) / (2 - lam))
                          else g2 x).
  pose proof (read_write_same r v (map g3 v) s Hr) as H3.
  (* case 4 *)
  unfold bind at 1; rewrite (getmask_ok _ _ _ _ H3).
  unfold bind at 1; rewrite (setmask_ok _ _ _ _ _ H3), HT.
  rewrite !map_map, write_write.
  rewrite (put_take_map g3).
  unfold ret; f_equal; f_equal.
  apply map_ext; intros x.
  exact (yj_masks_elem T lam x).
Qed.

(** On a float array: the buffer itself is overwritten with the
    per-element transform, and the very same reference comes back. *)
Lemma _yj_transform_y_inplace (r : ndref) (lam : R) (v : ndarray) (s : Store) :
  contents (NdArray r) s = Some v ->
  _yj_transform_y (NdArray r) lam s = (Ok r, write r (map (yj_elem lam) v) s).
Proof.
  intros H; apply contents_float in H as [Hr Hfl].
  apply (_yj_transform_y_cast (fun x => x) r lam v s); auto.
  intros w; now rewrite Hfl, map_id.
Qed.

(** On an int64 array: each cell is overwritten with the per-element
    transform of what it held, the fraction dropped. *)
Lemma _yj_transform_y_int64 (a : nat) (lam : R) (v : ndarray) (s : Store) :
  read (IArr a) s = Some v ->
  _yj_transform_y (NdArray (IArr a)) lam s
  = (Ok (IArr a), write (IArr a) (map (fun x => Rtrunc (yj_elem lam x)) v) s).
Proof.
  intros Hr; apply (_yj_transform_y_cast Rtrunc (IArr a) lam v s); auto.
Qed.

(** ** The buffer and the score of [_yj_llf] *)

Lemma np_min_ok (v : ndarray) (s : Store) :
  v <> [] -> np_min v s = (Ok (Rmin_list v), s).
Proof. destruct v; [congruence | reflexivity]. Qed.

Lemma vadd_length v c : length (vadd v c) = length v.
Proof. apply length_map. Qed.

Lemma _yj_llf_ndarray (r : ndref) (lam : R) (v : ndarray) (s : Store) :
  contents (NdArray r) s = Some v -> v <> [] ->
  _yj_llf (NdArray r) lam s
  = (Ok (yj_llf_score lam (yj_llf_buffer lam v)), write r (yj_llf_buffer lam v) s).
Proof.
  intros Hc Hne.
  pose proof (proj1 (contents_float _ _ _ Hc)) as Hr.
  unfold _yj_llf, np_asarray.
  unfold bind at 1, ret at 1.
  unfold bind at 1; rewrite (load_ok _ _ _ Hr).
  unfold bind at 1; rewrite (_yj_transform_y_inplace _ _ _ _ Hc).
  set (t := map (yj_elem lam) v).
  assert (Ht : t <> []) by (unfold t; destruct v; simpl; congruence).
  pose proof (read_write_same r v t s Hr) as H1.
  unfold bind at 1; rewrite (load_ok _ _ _ H1).
  unfold bind at 1; rewrite (load_ok _ _ _ H1).
  unfold bind at 1; rewrite (np_min_ok _ _ Ht).
  unfold bind at 1; rewrite (np_min_ok _ _ Ht).
  assert (Hlen : forall buf : ndarray, length buf = length v ->
            INR (length v) = INR (length buf)) by (intros buf ->; reflexivity).
  unfold yj_llf_buffer; fold t.
  destruct (Rltb (Rmin_list t) ZERO) eqn:Em.
  - set (c := Rabs (Rmin_list t) + 1).
    unfold bind at 1; rewrite (iadd_ok _ _ _ _ H1), write_write.
    pose proof (read_write_same r v (vadd t c) s Hr) as H2.
    unfold bind at 1; rewrite (iadd_ok _ _ _ _ H2), write_write.
    pose proof (read_write_same r v (vadd (vadd t c) c) s Hr) as H3.
    unfold bind at 1; rewrite (load_ok _ _ _ H3).
    unfold yj_llf_score.
    rewrite (Hlen (vadd (vadd t c) c))
      by (rewrite !vadd_length; apply length_map).
    destruct (Reqb 0 _); [reflexivity|].
    unfold bind at 1; rewrite (load_ok _ _ _ H3); reflexivity.
  - unfold bind at 1, ret at 1.
    unfold bind at 1, ret at 1.
    unfold bind at 1; rewrite (load_ok _ _ _ H1).
    unfold yj_llf_score.
    rewrite (Hlen t) by apply length_map.
    destruct (Reqb 0 _); [reflexivity|].
    unfold bind at 1; rewrite (load_ok _ _ _ H1); reflexivity.
Qed.

Lemma read_alloc (v : ndarray) (s : Store) :
  read (Arr (length (arrays s))) (mkStore (arrays s ++ [v]) (frames s)) = Some v.
Proof.
  simpl; rewrite nth_error_app2 by lia.
  now rewrite Nat.sub_diag.
Qed.

Lemma _yj_llf_pylist (lam : R) (l : list R) (s : Store) :
  l <> [] ->
  _yj_llf (PyList l) lam s
  = (Ok (yj_llf_score lam (yj_llf_buffer lam l)),
     mkStore (arrays s ++ [yj_llf_buffer lam l]) (frames s)).
Proof.
  intros Hne.
  pose proof (_yj_llf_ndarray (Arr (length (arrays s))) lam l
                (mkStore (arrays s ++ [l]) (frames s)) (read_alloc l s) Hne) as H.
  unfold _yj_llf in *; simpl np_asarray in *.
  unfold bind at 1; unfold alloc at 1.
  unfold bind at 1 in H; unfold ret at 1 in H.
  etransitivity; [exact H|]; f_equal.
  unfold write; simpl.
  f_equal.
  clear; induction (arrays s) as [|x a IH]; simpl; auto.
  now rewrite IH.
Qed.

(** ** The piecewise transform *)

Lemma yj_elem_branch (lam x : R) (b : yj_branch) :
  in_branch lam x b -> yj_elem lam x = branch_value lam x b.
Proof.
  unfold yj_elem, np_power, np_log.
  destruct b; simpl; intros [Hx Hl].
  - now rewrite Rgeb_true, Rgtb_true.
  - rewrite Rgeb_true, Rgtb_false by lra; reflexivity.
  - rewrite Rgeb_false, Reqb_false by lra; reflexivity.
  - rewrite Rgeb_false, Reqb_true by lra; reflexivity.
Qed.



Lemma _yj_transform_y_ok (y : arraylike) (lam : R) (v : ndarray) (s : Store) :
  contents y s = Some v ->
  exists r s',
    _yj_transform_y y lam s = (Ok r, s')
    /\ read r s' = Some (map (yj_elem lam) v).
Proof.
  destruct y as [r|l]; intros H.
  - exists r, (write r (map (yj_elem lam) v) s); split.
    + now apply _yj_transform_y_inplace.
    + eapply read_write_same; apply (contents_float _ _ _ H).
  - injection H as ->.
    pose proof (_yj_transform_y_inplace (Arr (length (arrays s))) lam v
                  (mkStore (arrays s ++ [v]) (frames s)) (read_alloc v s)) as E.
    eexists _, _; split.
    + unfold _yj_transform_y in *; simpl np_asarray in *.
      unfold bind at 1; unfold alloc at 1.
      unfold bind at 1 in E; unfold ret at 1 in E.
      exact E.
    + eapply read_write_same; apply read_alloc.
Qed.


Lemma yj_elem_2_0 : yj_elem 2 0 = 0.
Proof.
  unfold yj_elem.
  rewrite Rgeb_true by lra.
  rewrite Rgtb_true by (pose proof ZERO_lt_1; lra).
  replace (0 + 1) with 1 by lra.
  rewrite np_power_1_l; lra.
Qed.

Lemma yj_elem_2_1 : yj_elem 2 1 = 3 / 2.
Proof.
  unfold yj_elem.
  rewrite Rgeb_true by lra.
  rewrite Rgtb_true by (pose proof ZERO_lt_1; lra).
  rewrite np_power_sq by lra; lra.
Qed.


(** ** The transform on an integer array *)

Lemma Rtrunc_0 : Rtrunc 0 = 0.
Proof.
  unfold Rtrunc; rewrite Rgeb_true by lra.
  rewrite <- (Int_part_spec 0 0) by (simpl; lra).
  reflexivity.
Qed.

Lemma Rtrunc_3_2 : Rtrunc (3 / 2) = 1.
Proof.
  unfold Rtrunc; rewrite Rgeb_true by lra.
  rewrite <- (Int_part_spec (3 / 2) 1) by (simpl; lra).
  reflexivity.
Qed.

(** C2.  [_yj_transform_y] keeps the dtype of the array it is handed.  On
    the int64 array [[0, 1]] with [lam = 2] the buffer reads [[0, 1]]
    after the call, where the table gives [((1+1)^2 - 1)/2 = 1.5] for the
    value 1, the row for [x >= 0, lam > ZERO]: the fraction is dropped
    when the value is assigned into the integer buffer, so the array that
    comes back does not hold the piecewise transform of its values. *)
Theorem yj_transform_y_truncates_int64 :
  _yj_transform_y (NdArray (IArr 0)) 2 (mkStore [[0; 1]] [])
  = (Ok (IArr 0), mkStore [[0; 1]] [])
  /\ in_branch 2 1 Case1
  /\ branch_value 2 1 Case1 = 3 / 2
  /\ map (yj_elem 2) [0; 1] = [0; 3 / 2]
  /\ read (IArr 0) (mkStore [[0; 1]] []) <> Some (map (yj_elem 2) [0; 1]).
Proof.
  assert (Hb : in_branch 2 1 Case1)
    by (simpl; pose proof ZERO_lt_1; lra).
  split; [|split; [exact Hb|split; [|split]]].
  - rewrite (_yj_transform_y_int64 0 2 [0; 1]) by reflexivity.
    simpl; now rewrite yj_elem_2_0, yj_elem_2_1, Rtrunc_0, Rtrunc_3_2.
  - rewrite <- (yj_elem_branch 2 1 Case1 Hb); apply yj_elem_2_1.
  - simpl; now rewrite yj_elem_2_0, yj_elem_2_1.
  - simpl; rewrite yj_elem_2_0, yj_elem_2_1.
    intros H; injection H as H; lra.
Qed.

(** ** The in-place transform seen from its callers *)

Lemma yj_llf_buffer_0_1 : yj_llf_buffer 2 [0; 1] = [2; 7 / 2].
Proof.
  unfold yj_llf_buffer; simpl map.
  rewrite yj_elem_2_0, yj_elem_2_1.
  simpl Rmin_list.
  rewrite (Rmin_left 0 (3 / 2)) by lra.
  rewrite Rltb_true by apply ZERO_pos.
  rewrite Rabs_R0; simpl.
  f_equal; [lra|].
  f_equal; lra.
Qed.

Lemma yj_llf_score_0_1 :
  yj_llf_score 2 [2; 7 / 2] = Num (ln 2 + ln (7 / 2) - ln (9 / 16)).
Proof.
  unfold yj_llf_score.
  assert (Hv : np_sum (vdiv (vsqr (vsub [2; 7 / 2] (np_mean [2; 7 / 2])))
                 (INR (length [2; 7 / 2]))) = 9 / 16)
    by (unfold np_mean; simpl; field).
  rewrite Hv, Reqb_false by lra.
  f_equal; simpl; unfold np_log; lra.
Qed.

Lemma yj_llf_spec_0_1 : yj_llf_spec [0; 1] 2 = Num (ln 2 - ln (9 / 16)).
Proof.
  unfold yj_llf_spec; simpl map.
  rewrite yj_elem_2_0, yj_elem_2_1.
  unfold shift_if_low; simpl Rmin_list.
  rewrite (Rmin_left 0 (3 / 2)), (Rmin_left 0 1) by lra.
  rewrite Rltb_true by apply ZERO_pos.
  rewrite Rabs_R0.
  assert (Hv : population_variance (vadd [0; 3 / 2] (0 + 1)) = 9 / 16)
    by (unfold population_variance, np_mean; simpl; field).
  rewrite Hv, Reqb_false by lra.
  f_equal; simpl.
  replace (0 + (0 + 1)) with 1 by lra.
  rewrite ln_1.
  replace (1 + (0 + 1)) with 2 by lra.
  lra.
Qed.

(** C4.  [_yj_transform_y] on the array [[0., 1.]] with [lam = 2]: the
    reference that comes back is the reference that went in, and the
    buffer the caller holds now reads [[0., 1.5]]. *)
Theorem yj_transform_y_overwrites_input :
  _yj_transform_y (NdArray (Arr 0)) 2 (mkStore [[0; 1]] [])
  = (Ok (Arr 0), mkStore [[0; 3 / 2]] [])
  /\ read (Arr 0) (mkStore [[0; 3 / 2]] []) <> read (Arr 0) (mkStore [[0; 1]] []).
Proof.
  split.
  - rewrite (_yj_transform_y_inplace (Arr 0) 2 [0; 1]) by reflexivity.
    simpl; now rewrite yj_elem_2_0, yj_elem_2_1.
  - simpl; intros H; injection H as H; lra.
Qed.

(** C3.  [_yj_llf] on the caller's array [[0., 1.]] with [lam = 2]: after
    the call that array holds the transformed values shifted twice,
    [[2., 3.5]]. *)
Theorem yj_llf_overwrites_caller_array :
  _yj_llf (NdArray (Arr 0)) 2 (mkStore [[0; 1]] [])
  = (Ok (Num (ln 2 + ln (7 / 2) - ln (9 / 16))), mkStore [[2; 7 / 2]] [])
  /\ read (Arr 0) (mkStore [[2; 7 / 2]] []) <> read (Arr 0) (mkStore [[0; 1]] []).
Proof.
  split.
  - rewrite (_yj_llf_ndarray (Arr 0) 2 [0; 1]) by (reflexivity || discriminate).
    now rewrite yj_llf_buffer_0_1, yj_llf_score_0_1.
  - simpl; intros H; injection H as H; lra.
Qed.

(** C1.  [_yj_llf] on the list [[0., 1.]] with [lam = 2]: the logarithm is
    taken of the buffer that holds the transformed and twice shifted
    values, [ln 2 + ln 3.5], where the likelihood of the specification
    takes it of the shifted raw data, [ln 1 + ln 2]; the two scores
    differ. *)
Theorem yj_llf_logs_transformed_buffer :
  fst (_yj_llf (PyList [0; 1]) 2 (mkStore [] []))
  = Ok (Num (ln 2 + ln (7 / 2) - ln (9 / 16)))
  /\ yj_llf_spec [0; 1] 2 = Num (ln 2 - ln (9 / 16))
  /\ Num (ln 2 + ln (7 / 2) - ln (9 / 16)) <> yj_llf_spec [0; 1] 2.
Proof.
  repeat split.
  - rewrite _yj_llf_pylist by discriminate.
    simpl; now rewrite yj_llf_buffer_0_1, yj_llf_score_0_1.
  - apply yj_llf_spec_0_1.
  - rewrite yj_llf_spec_0_1; intros H; injection H as H.
    assert (H1 : ln 1 < ln (7 / 2)) by (apply ln_increasing; lra).
    rewrite ln_1 in H1; lra.
Qed.

(** ** Continuity of the transform at zero *)

Lemma continuity_pt_ln_1 : continuity_pt ln 1.
Proof.
  apply derivable_continuous_pt.
  exists (/ 1). apply derivable_pt_lim_ln; lra.
Qed.

Lemma continuity_pt_Rpower_1 (c : R) : continuity_pt (fun u => Rpower u c) 1.
Proof.
  apply derivable_continuous_pt.
  exists (c * Rpower 1 (c - 1)). apply derivable_pt_lim_power; lra.
Qed.

(** From the continuity of [P] at 1 to the limit at 0 of a branch
    [(P (k x + 1) - P 1) / c], for [k] of modulus one. *)
Lemma branch_tends_to_0 (P : R -> R) (k c : R) :
  Rabs k = 1 -> c <> 0 -> continuity_pt P 1 ->
  forall eps, eps > 0 ->
  exists d, d > 0 /\ forall x, Rabs x < d -> Rabs ((P (k * x + 1) - P 1) / c) < eps.
Proof.
  intros Hk Hc HP eps Heps.
  assert (Hac : 0 < Rabs c) by now apply Rabs_pos_lt.
  destruct (HP (eps * Rabs c)) as (d & Hd & H).
  { apply Rmult_gt_0_compat; lra. }
  exists d; split; auto.
  intros x Hx.
  unfold Rdiv; rewrite Rabs_mult, Rabs_inv.
  apply Rmult_lt_reg_r with (Rabs c); auto.
  rewrite Rmult_assoc, Rinv_l, Rmult_1_r by lra.
  destruct (Req_dec_T (k * x + 1) 1) as [E|E].
  - rewrite E, Rminus_diag, Rabs_R0. apply Rmult_gt_0_compat; lra.
  - apply (H (k * x + 1)); split.
    + split; [exact I | congruence].
    + simpl; unfold Rdist.
      replace (k * x + 1 - 1) with (k * x) by ring.
      rewrite Rabs_mult, Hk; lra.
Qed.

Lemma yj_elem_0 lam : yj_elem lam 0 = 0.
Proof.
  unfold yj_elem.
  rewrite Rgeb_true by lra.
  replace (0 + 1) with 1 by lra.
  destruct (Rgtb lam ZERO).
  - rewrite np_power_1_l. unfold Rdiv; ring.
  - unfold np_log; apply ln_1.
Qed.

Lemma Rabs_m1 : Rabs (-1) = 1.
Proof. unfold Rabs; destruct (Rcase_abs (-1)); lra. Qed.

Lemma yj_elem_right_of_0 lam eps :
  eps > 0 ->
  exists d, d > 0 /\ forall x, x >= 0 -> Rabs x < d -> Rabs (yj_elem lam x) < eps.
Proof.
  intros Heps; unfold yj_elem.
  destruct (Rgt_dec lam ZERO) as [Hl|Hl].
  - assert (Hc : lam <> 0) by (pose proof ZERO_pos; lra).
    destruct (branch_tends_to_0 (fun u => Rpower u lam) 1 lam Rabs_R1 Hc
                (continuity_pt_Rpower_1 lam) eps Heps) as (d & Hd & H).
    exists d; split; auto.
    intros x Hx Hxd.
    rewrite Rgeb_true, Rgtb_true by assumption.
    specialize (H x Hxd); fold (np_power 1 lam) in H.
    rewrite np_power_1_l in H.
    unfold np_power; now replace (x + 1) with (1 * x + 1) by ring.
  - destruct (branch_tends_to_0 ln 1 1 Rabs_R1 R1_neq_R0
                continuity_pt_ln_1 eps Heps) as (d & Hd & H).
    exists d; split; auto.
    intros x Hx Hxd.
    rewrite Rgeb_true, Rgtb_false by assumption.
    specialize (H x Hxd); rewrite ln_1 in H.
    unfold np_log; replace (x + 1) with (1 * x + 1) by ring.
    now replace (ln (1 * x + 1)) with ((ln (1 * x + 1) - 0) / 1) by field.
Qed.

Lemma yj_elem_left_of_0 lam eps :
  eps > 0 ->
  exists d, d > 0 /\ forall x, x < 0 -> Rabs x < d -> Rabs (yj_elem lam x) < eps.
Proof.
  intros Heps; unfold yj_elem.
  destruct (Req_dec_T lam 2) as [Hl|Hl].
  - assert (Hc : -1 <> 0) by lra.
    destruct (branch_tends_to_0 ln (-1) (-1) Rabs_m1 Hc
                continuity_pt_ln_1 eps Heps) as (d & Hd & H).
    exists d; split; auto.
    intros x Hx Hxd.
    rewrite Rgeb_false, Reqb_true by (assumption || lra).
    specialize (H x Hxd); rewrite ln_1 in H.
    unfold np_log; replace (- x + 1) with (-1 * x + 1) by ring.
    now replace (- ln (-1 * x + 1)) with ((ln (-1 * x + 1) - 0) / -1) by field.
  - assert (Hc : - (2 - lam) <> 0) by lra.
    destruct (branch_tends_to_0 (fun u => Rpower u (2 - lam)) (-1) (- (2 - lam))
                Rabs_m1 Hc (continuity_pt_Rpower_1 (2 - lam)) eps Heps)
      as (d & Hd & H).
    exists d; split; auto.
    intros x Hx Hxd.
    rewrite Rgeb_false, Reqb_false by (assumption || lra).
    specialize (H x Hxd); fold (np_power 1 (2 - lam)) in H.
    rewrite np_power_1_l in H.
    unfold np_power; replace (- x + 1) with (-1 * x + 1) by ring.
    match goal with
    | H : Rabs ?a < eps |- Rabs ?b < eps => replace b with a; [exact H|]
    end.
    field; lra.
Qed.

Lemma yj_elem_continuous_0 lam : continuity_pt (yj_elem lam) 0.
Proof.
  intros eps Heps.
  destruct (yj_elem_right_of_0 lam eps Heps) as (d1 & Hd1 & H1).
  destruct (yj_elem_left_of_0 lam eps Heps) as (d2 & Hd2 & H2).
  exists (Rmin d1 d2); split.
  - apply Rmin_glb_lt; assumption.
  - intros x [_ Hx]; simpl in Hx |- *; unfold Rdist in *.
    rewrite yj_elem_0, Rminus_0_r in *.
    destruct (Rge_dec x 0) as [Hx0|Hx0].
    + apply H1; auto. eapply Rlt_le_trans; [exact Hx | apply Rmin_l].
    + apply H2; [lra|]. eapply Rlt_le_trans; [exact Hx | apply Rmin_r].
Qed.

(** C9.  For every lambda the array [_yj_transform_y] returns has 0 at
    each position where its input has 0; each of the four expressions of
    the table is 0 at [x = 0]; and the per-element transform, whose values
    the returned array holds, is continuous at 0. *)
Theorem yj_transform_zero (y : arraylike) (lam : R) (v : ndarray) (s : Store) :
  contents y s = Some v ->
  exists r s' v',
    _yj_transform_y y lam s = (Ok r, s')
    /\ read r s' = Some v'
    /\ v' = map (yj_elem lam) v
    /\ Forall2 (fun x z => x = 0 -> z = 0) v v'
    /\ (forall b, branch_value lam 0 b = 0)
    /\ continuity_pt (yj_elem lam) 0.
Proof.
  intros H.
  destruct (_yj_transform_y_ok y lam v s H) as (r & s' & E & Hr).
  exists r, s', (map (yj_elem lam) v); repeat split; auto.
  - clear; induction v as [|x v IH]; simpl; constructor; auto.
    intros ->; apply yj_elem_0.
  - intros b; destruct b; simpl.
    + replace (0 + 1) with 1 by lra.
      fold (np_power 1 lam); rewrite np_power_1_l; unfold Rdiv; ring.
    + replace (0 + 1) with 1 by lra; apply ln_1.
    + replace (- 0 + 1) with 1 by lra.
      fold (np_power 1 (2 - lam)); rewrite np_power_1_l; unfold Rdiv; ring.
    + replace (- 0 + 1) with 1 by lra; rewrite ln_1; ring.
  - apply yj_elem_continuous_0.
Qed.

Lemma yj_transform_zero_witness :
  exists r s' v',
    _yj_transform_y (PyList [0; 1]) 1 (mkStore [] []) = (Ok r, s')
    /\ read r s' = Some v'
    /\ v' = map (yj_elem 1) [0; 1]
    /\ Forall2 (fun x z => x = 0 -> z = 0) [0; 1] v'
    /\ (forall b, branch_value 1 0 b = 0)
    /\ continuity_pt (yj_elem 1) 0.
Proof.
  apply (yj_transform_zero (PyList [0; 1]) 1 [0; 1]).
  reflexivity.
Defined.

(** ** The Box-Cox transform *)

Lemma bc_transform_vector_ok
    (min_value : R) (vec : arraylike) (lam : R) (v : ndarray) (s : Store) :
  contents vec s = Some v ->
  exists r s',
    BoxCoxTransformer._transform_vector min_value vec lam s = (Ok r, s')
    /\ read r s'
       = Some (if Rgtb lam ZERO
               then vdiv (vsub (vpow (np_maximum v min_value) lam) 1) lam
               else vlog (np_maximum v min_value))
    /\ frames s' = frames s
    /\ exists new, arrays s' = arrays s ++ new.
Proof.
  unfold BoxCoxTransformer._transform_vector.
  destruct vec as [r|l]; intros H.
  - pose proof (proj1 (contents_float _ _ _ H)) as Hr; simpl.
    unfold bind at 1, ret at 1.
    unfold bind at 1; rewrite (load_ok _ _ _ Hr).
    destruct (Rgtb lam ZERO); unfold alloc;
      (eexists _, _; split; [reflexivity|]; split; [apply read_alloc|];
       split; [reflexivity | eexists; reflexivity]).
  - injection H as ->; simpl.
    unfold bind at 1; unfold alloc at 1.
    unfold bind at 1; rewrite (load_ok _ _ _ (read_alloc v s)).
    destruct (Rgtb lam ZERO); unfold alloc;
      (eexists _, _; split; [reflexivity|]; split;
       [apply (read_alloc _ (mkStore (arrays s ++ [v]) (frames s)))|];
       split; [reflexivity | simpl; rewrite <- app_assoc; eexists; reflexivity]).
Qed.

(** C5.  For a positive [min_value] and a float array-like, the Box-Cox
    [_transform_vector] returns a new array: with every value of the column
    floored at [min_value] first, its values are [(y^lam - 1)/lam] of the
    floored values when [lam > ZERO], and [ln y] of the floored values when
    [lam <= ZERO], where [ZERO] is [1e-16].  The floored values are
    positive, where the real power and logarithm are those of numpy. *)
Theorem boxcox_transform_vector_spec
    (min_value : R) (vec : arraylike) (lam : R) (v : ndarray) (s : Store) :
  0 < min_value ->
  contents vec s = Some v ->
  exists r s',
    BoxCoxTransformer._transform_vector min_value vec lam s = (Ok r, s')
    /\ (lam > ZERO ->
        read r s' = Some (map (fun y => (Rpower y lam - 1) / lam)
                              (map (fun x => Rmax x min_value) v)))
    /\ (lam <= ZERO ->
        read r s' = Some (map ln (map (fun x => Rmax x min_value) v)))
    /\ Forall (fun y => 0 < y) (map (fun x => Rmax x min_value) v)
    /\ ZERO * 10 ^ 16 = 1.
Proof.
  intros Hmv H.
  destruct (bc_transform_vector_ok min_value vec lam v s H)
    as (r & s' & E & Hr & _).
  exists r, s'; repeat split; auto.
  - intros Hl; rewrite Hr, Rgtb_true by assumption.
    unfold vdiv, vsub, vpow, np_maximum, np_power; now rewrite !map_map.
  - intros Hl; rewrite Hr, Rgtb_false by lra.
    reflexivity.
  - apply Forall_forall; intros y Hy.
    apply in_map_iff in Hy as (x & <- & _).
    pose proof (Rmax_r x min_value); lra.
  - unfold ZERO; field.
Qed.

Lemma boxcox_transform_vector_spec_witness :
  exists r s',
    BoxCoxTransformer._transform_vector (1 / 2) (PyList [0; 3]) 1 (mkStore [] [])
    = (Ok r, s')
    /\ (1 > ZERO ->
        read r s' = Some (map (fun y => (Rpower y 1 - 1) / 1)
                              (map (fun x => Rmax x (1 / 2)) [0; 3])))
    /\ (1 <= ZERO ->
        read r s' = Some (map ln (map (fun x => Rmax x (1 / 2)) [0; 3])))
    /\ Forall (fun y => 0 < y) (map (fun x => Rmax x (1 / 2)) [0; 3])
    /\ ZERO * 10 ^ 16 = 1.
Proof.
  apply (boxcox_transform_vector_spec (1 / 2) (PyList [0; 3]) 1 [0; 3]).
  - lra.
  - reflexivity.
Defined.

(** ** Validation *)

Lemma count_nonfinite_0 df cs : count_nonfinite df cs = 0%nat.
Proof.
  unfold count_nonfinite, list_sum.
  induction cs as [|c cs IH]; cbn [map fold_right]; auto.
  rewrite IH, Nat.add_0_r.
  destruct (get_column df c) as [v|]; auto.
  induction v; simpl; auto.
Qed.

Lemma existsb_negb_forallb {A} (p : A -> bool) l :
  existsb (fun c => negb (p c)) l = negb (forallb p l).
Proof.
  induction l as [|a l IH]; simpl; auto.
  rewrite IH; now destruct (p a).
Qed.

Lemma nth_error_snoc {A} (l : list A) a : nth_error (l ++ [a]) (length l) = Some a.
Proof. rewrite nth_error_app2 by lia; now rewrite Nat.sub_diag. Qed.

(** [check_dataframe] on a frame of the store whose requested columns are
    all there: a copy is allocated, the columns are resolved. *)
Lemma check_dataframe_frame (f : nat) (ca : cols_arg) (df : DataFrame) (s : Store) :
  nth_error (frames s) f = Some df ->
  forallb (fun c => mem c (columns df)) (cols_list ca) = true ->
  check_dataframe (PFrame f) ca true false s
  = (Ok (length (frames s), resolve_cols ca df, None),
     mkStore (arrays s) (frames s ++ [df])).
Proof.
  intros Hf Hc.
  unfold check_dataframe.
  unfold bind at 1, ret at 1.
  unfold bind at 1, load_frame at 1; rewrite Hf.
  assert (E : (match ca with
               | ColsNone => ret (columns df)
               | _ => if existsb (fun c => negb (mem c (columns df))) (cols_list ca)
                      then raise ValueError else ret (cols_list ca)
               end) s = (Ok (resolve_cols ca df), s)).
  { destruct ca; [reflexivity| |]; cbv beta iota;
      rewrite existsb_negb_forallb, Hc; reflexivity. }
  unfold bind at 1; rewrite E.
  rewrite count_nonfinite_0; simpl.
  reflexivity.
Qed.

(** ** The loop of [transform] *)

Lemma bc_elem_map min_value lam v :
  (if Rgtb lam ZERO
   then vdiv (vsub (vpow (np_maximum v min_value) lam) 1) lam
   else vlog (np_maximum v min_value))
  = map (bc_elem min_value lam) v.
Proof.
  unfold bc_elem, vdiv, vsub, vpow, vlog, np_maximum.
  destruct (Rgtb lam ZERO); now rewrite !map_map.
Qed.

Lemma has_column_replace df nm nm' v :
  has_column (replace_column df nm v) nm' = has_column df nm'.
Proof. unfold has_column; now rewrite columns_replace. Qed.

Lemma get_column_has df nm v : get_column df nm = Some v -> has_column df nm = true.
Proof. intros H; apply has_column_get; eauto. Qed.

Lemma loop_body_ok self X nm lam d v s :
  nth_error (frames s) X = Some d ->
  get_column d nm = Some v ->
  exists s',
    loop_body self X (nm, lam) s = (Ok tt, s')
    /\ frames s' = update (frames s) X
                     (replace_column d nm (map (elem_transform self lam) v))
    /\ exists new, arrays s' = arrays s ++ new.
Proof.
  intros Hf Hc.
  pose proof (get_column_has _ _ _ Hc) as Hh.
  assert (Hread : read (Col X nm) s = Some v) by (simpl; now rewrite Hf).
  unfold loop_body, getitem.
  unfold bind at 1. unfold bind at 1, load_frame at 1; rewrite Hf, Hh.
  unfold ret at 1.
  unfold _transform_vector, elem_transform, setitem.
  destruct (params self) as [min_value|brack].
  - destruct (bc_transform_vector_ok min_value (NdArray (Col X nm)) lam v s Hread)
      as (r & s1 & E & Hr & Hfr & new & Hnew).
    unfold bind at 1; rewrite E.
    unfold bind at 1; rewrite (load_ok _ _ _ Hr).
    unfold bind at 1, load_frame at 1; rewrite Hfr, Hf.
    unfold store_frame, set_column; rewrite Hh.
    rewrite bc_elem_map.
    eexists; split; [reflexivity|]; simpl; rewrite Hfr; split; eauto.
  - unfold YeoJohnsonTransformer._transform_vector.
    unfold bind at 1; rewrite (_yj_transform_y_inplace (Col X nm) lam v s Hread).
    set (w := map (yj_elem lam) v).
    unfold bind at 1; rewrite (load_ok _ _ _ (read_write_same _ _ w _ Hread)).
    unfold write; rewrite Hf.
    unfold bind at 1, load_frame at 1; simpl frames.
    rewrite (nth_error_update_same _ _ _ _ Hf).
    unfold store_frame, set_column; rewrite has_column_replace, Hh.
    simpl; rewrite update_update, replace_replace.
    eexists; split; [reflexivity|]; simpl; split; auto.
    exists []; now rewrite app_nil_r.
Qed.

Lemma apply_pairs_columns self pairs df :
  columns (apply_pairs self pairs df) = columns df.
Proof.
  revert df; induction pairs as [|[nm lam] ps IH]; intros df; simpl; auto.
  destruct (get_column df nm); auto.
  now rewrite IH, columns_replace.
Qed.

Lemma forallb_mem_get df cs :
  forallb (fun c => mem c (columns df)) cs = true ->
  forall c, In c cs -> exists v, get_column df c = Some v.
Proof.
  intros H c Hc.
  rewrite forallb_forall in H.
  apply has_column_get, (H c Hc).
Qed.

Lemma loop_ok self X pairs :
  forall d s,
    nth_error (frames s) X = Some d ->
    (forall c, In c (map fst pairs) -> has_column d c = true) ->
    exists s',
      forM_ pairs (loop_body self X) s = (Ok tt, s')
      /\ frames s' = update (frames s) X (apply_pairs self pairs d)
      /\ exists new, arrays s' = arrays s ++ new.
Proof.
  induction pairs as [|[nm lam] ps IH]; intros d s Hf Hall;
    cbn [forM_ apply_pairs].
  - exists s; split; [reflexivity|]; split.
    + now rewrite update_same.
    + exists []; now rewrite app_nil_r.
  - destruct (proj1 (has_column_get d nm) (Hall nm (or_introl eq_refl))) as [v Hv].
    destruct (loop_body_ok self X nm lam d v s Hf Hv) as (s1 & E1 & Hf1 & new1 & Ha1).
    rewrite Hv.
    set (d1 := replace_column d nm (map (elem_transform self lam) v)) in *.
    assert (Hf1' : nth_error (frames s1) X = Some d1)
      by (rewrite Hf1; eapply nth_error_update_same; eauto).
    destruct (IH d1 s1 Hf1') as (s2 & E2 & Hf2 & new2 & Ha2).
    { intros c Hc; unfold d1; rewrite has_column_replace.
      apply Hall; now right. }
    exists s2; split; [|split].
    + unfold bind; rewrite E1; exact E2.
    + now rewrite Hf2, Hf1, update_update.
    + exists (new1 ++ new2); now rewrite Ha2, Ha1, app_assoc.
Qed.

Lemma update_snoc {A} (l : list A) a b : update (l ++ [a]) (length l) b = l ++ [b].
Proof. induction l as [|x l IH]; simpl; auto. now rewrite IH. Qed.

Lemma in_map_fst_combine {A B} (l : list A) (l' : list B) a :
  In a (map fst (combine l l')) -> In a l.
Proof.
  revert l'; induction l as [|x l IH]; intros [|y l']; simpl; try tauto.
  intros [H|H]; eauto.
Qed.

Lemma map_fst_combine {A B} (l : list A) (l' : list B) :
  length l' = length l -> map fst (combine l l') = l.
Proof.
  revert l'; induction l as [|x l IH]; intros [|y l']; simpl; try discriminate; auto.
  intros [= H]; now rewrite IH.
Qed.

(** [transform] on a frame that passes both presence checks. *)
Lemma transform_run self f df lams fcols s :
  lambda_ self = Some lams ->
  fit_cols_ self = Some fcols ->
  nth_error (frames s) f = Some df ->
  forallb (fun c => mem c (columns df)) (cols_list (cols self)) = true ->
  forallb (fun c => mem c (columns df)) fcols = true ->
  exists s',
    _BaseSkewnessTransformer.transform self (PFrame f) s
    = (Ok (if as_df self then OutFrame (length (frames s))
           else OutValues (values (apply_pairs self (combine fcols lams) df))),
       s')
    /\ frames s' = frames s ++ [apply_pairs self (combine fcols lams) df]
    /\ exists new, arrays s' = arrays s ++ new.
Proof.
  intros Hl Hc Hf Hcols Hfit.
  unfold _BaseSkewnessTransformer.transform.
  unfold bind at 1, check_is_fitted at 1; rewrite Hl; unfold ret at 1.
  unfold bind at 1; rewrite (check_dataframe_frame f _ df s Hf Hcols).
  rewrite Hc; unfold getattr.
  unfold bind at 1, ret at 1.
  set (s1 := mkStore (arrays s) (frames s ++ [df])).
  set (X := length (frames s)).
  assert (HX : nth_error (frames s1) X = Some df) by apply nth_error_snoc.
  unfold bind at 1, load_frame at 1; rewrite HX.
  unfold bind at 1, validate_test_set_columns at 1; rewrite Hfit; unfold ret at 1.
  unfold bind at 1, ret at 1.
  destruct (loop_ok self X (combine fcols lams) df s1 HX) as (s2 & E & Hf2 & new & Ha).
  { intros c Hin; apply in_map_fst_combine in Hin.
    rewrite forallb_forall in Hfit; exact (Hfit c Hin). }
  change (forM_ (combine fcols lams) (loop_body self X) s1 = (Ok tt, s2)) in E.
  unfold loop_body in E.
  unfold bind at 1; rewrite E.
  assert (Hf2' : frames s2 = frames s ++ [apply_pairs self (combine fcols lams) df])
    by (rewrite Hf2; apply update_snoc).
  exists s2; split; [|split; [exact Hf2' | exists new; exact Ha]].
  destruct (as_df self); [reflexivity|].
  unfold bind, load_frame; rewrite Hf2'; unfold X.
  now rewrite nth_error_snoc.
Qed.

(** ** What the loop leaves in each column *)

Lemma nth_error_replace_other df nm w j c v :
  nth_error df j = Some (c, v) -> c <> nm ->
  nth_error (replace_column df nm w) j = Some (c, v).
Proof.
  revert j; induction df as [|[c' u] df IH]; intros [|j]; simpl;
    try discriminate; auto.
  intros [= -> ->] Hne.
  destruct (label_eqb c nm) eqn:E; auto.
  apply label_eqb_eq in E; contradiction.
Qed.

Lemma label_eqb_neq a b : a <> b -> label_eqb a b = false.
Proof.
  intros H; destruct (label_eqb a b) eqn:E; auto.
  apply label_eqb_eq in E; contradiction.
Qed.

Lemma apply_pairs_other_entry self pairs :
  forall df j c v,
    nth_error df j = Some (c, v) -> ~ In c (map fst pairs) ->
    nth_error (apply_pairs self pairs df) j = Some (c, v).
Proof.
  induction pairs as [|[nm lam] ps IH]; intros df j c v Hj Hn; simpl; auto.
  simpl in Hn.
  destruct (get_column df nm) as [w|]; apply IH; auto.
  apply nth_error_replace_other; auto.
Qed.

Lemma apply_pairs_other_column self pairs :
  forall df nm,
    ~ In nm (map fst pairs) ->
    get_column (apply_pairs self pairs df) nm = get_column df nm.
Proof.
  induction pairs as [|[c lam] ps IH]; intros df nm Hn; simpl; auto.
  simpl in Hn.
  destruct (get_column df c) as [w|]; rewrite IH by tauto; auto.
  apply get_replace_other, label_eqb_neq; tauto.
Qed.

Lemma apply_pairs_fit_column self pairs :
  NoDup (map fst pairs) ->
  forall df i nm lam v,
    nth_error pairs i = Some (nm, lam) ->
    get_column df nm = Some v ->
    get_column (apply_pairs self pairs df) nm
    = Some (map (elem_transform self lam) v).
Proof.
  induction pairs as [|[c l] ps IH]; intros Hnd df i nm lam v Hi Hv.
  - destruct i; discriminate.
  - simpl in Hnd; inversion Hnd as [|? ? Hnotin Hnd']; subst.
    destruct i as [|i]; simpl in Hi.
    + injection Hi as -> ->.
      simpl; rewrite Hv.
      rewrite apply_pairs_other_column by assumption.
      eapply get_replace_same; eauto.
    + assert (Hin : In nm (map fst ps)).
      { apply nth_error_In in Hi. now apply (in_map fst) in Hi. }
      assert (Hne : c <> nm) by (intros ->; contradiction).
      simpl.
      destruct (get_column df c) as [w|]; eapply IH; eauto.
      rewrite get_replace_other; auto.
      now apply label_eqb_neq.
Qed.

Lemma nth_error_combine {A B} (l : list A) (l' : list B) i a b :
  nth_error l i = Some a -> nth_error l' i = Some b ->
  nth_error (combine l l') i = Some (a, b).
Proof.
  revert l' i; induction l as [|x l IH]; intros [|y l'] [|i]; simpl;
    try discriminate; auto.
  now intros [= ->] [= ->].
Qed.

(** C7, as the code has it.  For a fitted transformer whose fit columns
    are distinct and whose [min_value], if it is the Box-Cox one, is
    positive, and a table of float64 columns with distinct labels that
    holds the columns asked for at construction and all fit columns,
    [transform] returns a table object the store did not hold before, with
    the labels of the input in their order; the i-th fit column, a float
    array with the values it had in the input, now holds the piecewise
    transform of those values under the i-th stored lambda; every column
    whose label is no fit column is as in the input; and every table and
    array the store held before the call, the caller's among them, is
    unchanged.  (With [as_df] off the same cells come back as a matrix.) *)
Theorem transform_replaces_fit_columns
    (self : Transformer) (f : nat) (df : DataFrame)
    (lams : list R) (fcols : list label) (s : Store) :
  lambda_ self = Some lams ->
  fit_cols_ self = Some fcols ->
  length lams = length fcols ->
  NoDup fcols ->
  (forall min_value, params self = BoxCox min_value -> 0 < min_value) ->
  nth_error (frames s) f = Some df ->
  NoDup (columns df) ->
  forallb (fun c => mem c (columns df)) (cols_list (cols self)) = true ->
  forallb (fun c => mem c (columns df)) fcols = true ->
  exists X' df' s',
    _BaseSkewnessTransformer.transform self (PFrame f) s
    = (Ok (if as_df self then OutFrame X' else OutValues (values df')), s')
    /\ nth_error (frames s) X' = None
    /\ nth_error (frames s') X' = Some df'
    /\ columns df' = columns df
    /\ (forall i nm lam,
          nth_error fcols i = Some nm -> nth_error lams i = Some lam ->
          exists v, get_column df nm = Some v
                    /\ contents (NdArray (Col f nm)) s = Some v
                    /\ get_column df' nm = Some (map (elem_transform self lam) v))
    /\ (forall j c v,
          nth_error df j = Some (c, v) -> ~ In c fcols ->
          nth_error df' j = Some (c, v))
    /\ (forall g d, nth_error (frames s) g = Some d ->
                    nth_error (frames s') g = Some d)
    /\ (forall a v, nth_error (arrays s) a = Some v ->
                    nth_error (arrays s') a = Some v).
Proof.
  intros Hl Hc Hlen Hnd _ Hf _ Hcols Hfit.
  destruct (transform_run self f df lams fcols s Hl Hc Hf Hcols Hfit)
    as (s' & E & Hfr & new & Harr).
  pose proof (map_fst_combine fcols lams Hlen) as Hfst.
  exists (length (frames s)), (apply_pairs self (combine fcols lams) df), s'.
  split; [exact E|].
  split; [apply nth_error_None; lia|].
  split; [rewrite Hfr; apply nth_error_snoc|].
  split; [apply apply_pairs_columns|].
  split; [|split; [|split]].
  - intros i nm lam Hi Hli.
    destruct (forallb_mem_get df fcols Hfit nm (nth_error_In _ _ Hi)) as [v Hv].
    exists v; split; [assumption|]; split.
    + simpl; now rewrite Hf.
    + apply (apply_pairs_fit_column self (combine fcols lams)) with (i := i); auto.
      * now rewrite Hfst.
      * now apply nth_error_combine.
  - intros j c v Hj Hn.
    apply apply_pairs_other_entry; auto.
    now rewrite Hfst.
  - intros g d Hg; rewrite Hfr.
    rewrite nth_error_app1; auto.
    apply nth_error_Some; congruence.
  - intros a v Ha; rewrite Harr.
    rewrite nth_error_app1; auto.
    apply nth_error_Some; congruence.
Qed.

(** ** [_fit] *)

Lemma bind_ok_inv {A B} (m : M A) (k : A -> M B) s b s' :
  bind m k s = (Ok b, s') ->
  exists a s1, m s = (Ok a, s1) /\ k a s1 = (Ok b, s').
Proof.
  unfold bind; destruct (m s) as [[a|e] s1]; [eauto | discriminate].
Qed.

Lemma check_dataframe_inv X ca s Xc cs o s1 :
  check_dataframe X ca true false s = (Ok (Xc, cs, o), s1) ->
  exists df,
    frame_of X s = Some df
    /\ cs = resolve_cols ca df
    /\ forallb (fun c => mem c (columns df)) (cols_list ca) = true
    /\ nth_error (frames s1) Xc = Some df
    /\ nth_error (frames s) Xc = None
    /\ (forall g d, nth_error (frames s) g = Some d ->
                    nth_error (frames s1) g = Some d)
    /\ arrays s1 = arrays s.
Proof.
  unfold check_dataframe; cbv zeta; intros H.
  apply bind_ok_inv in H as (X1 & s2 & HX & H).
  apply bind_ok_inv in H as (df & s3 & Hdf & H).
  apply bind_ok_inv in H as (cs1 & s4 & Hcs & H).
  apply bind_ok_inv in H as ([] & s5 & Hfin & H).
  apply bind_ok_inv in H as (Xc1 & s6 & Hcopy & H).
  unfold ret in H; injection H as <- <- _ <-.
  unfold load_frame in Hdf.
  destruct (nth_error (frames s2) X1) as [df'|] eqn:E; [|discriminate].
  injection Hdf as Edf Es; subst df' s3.
  assert (Hcols : cs1 = resolve_cols ca df
                  /\ forallb (fun c => mem c (columns df)) (cols_list ca) = true
                  /\ s4 = s2).
  { destruct ca; cbv beta iota in Hcs.
    - unfold ret in Hcs; injection Hcs as <- <-; auto.
    - rewrite existsb_negb_forallb in Hcs.
      destruct (forallb _ _) eqn:Ef; [|discriminate].
      unfold ret in Hcs; injection Hcs as <- <-; auto.
    - rewrite existsb_negb_forallb in Hcs.
      destruct (forallb _ _) eqn:Ef; [|discriminate].
      unfold ret in Hcs; injection Hcs as <- <-; auto. }
  destruct Hcols as (-> & Hpres & ->).
  rewrite count_nonfinite_0 in Hfin; simpl in Hfin.
  match type of Hfin with
  | (if ?b then _ else _) _ = _ => destruct b; [discriminate|]
  end.
  unfold ret in Hfin; injection Hfin as <-.
  unfold alloc_frame in Hcopy; injection Hcopy as <- <-.
  assert (Hs2 : frame_of X s = Some df
                /\ (exists new, frames s2 = frames s ++ new)
                /\ arrays s2 = arrays s).
  { destruct X as [f|rows|]; simpl in *.
    - unfold ret in HX; injection HX as <- <-.
      repeat split; auto. exists []; now rewrite app_nil_r.
    - destruct ca; try discriminate.
      unfold alloc_frame in HX; injection HX as <- <-.
      simpl in E; rewrite nth_error_snoc in E.
      repeat split; auto. simpl; eauto.
    - discriminate. }
  destruct Hs2 as (Hdf & (new & Hnew) & Harr).
  exists df; repeat split; auto.
  - simpl; apply nth_error_snoc.
  - apply nth_error_None; rewrite Hnew, length_app; lia.
  - intros g d Hg; simpl; rewrite Hnew, <- app_assoc.
    rewrite nth_error_app1; auto.
    apply nth_error_Some; congruence.
Qed.

Lemma getitem_inv X nm s a s1 :
  getitem X nm s = (Ok a, s1) -> a = NdArray (Col X nm) /\ s1 = s.
Proof.
  unfold getitem, bind, load_frame.
  destruct (nth_error (frames s) X); [|discriminate].
  destruct (has_column _ _); [|discriminate].
  unfold ret; intros [= <- <-]; auto.
Qed.

Lemma Parallel_estimated n est X cs :
  forall s lams s',
    Parallel n (fun i => Xi <- getitem X i ;; est Xi) cs s = (Ok lams, s') ->
    estimated est X cs s lams s' /\ length lams = length cs.
Proof.
  unfold Parallel.
  induction cs as [|c cs IH]; intros s lams s' H; cbn [mapM] in H.
  - unfold ret in H; injection H as <- <-; split; [constructor | reflexivity].
  - apply bind_ok_inv in H as (lam & s1 & Hlam & H).
    apply bind_ok_inv in H as (ls & s2 & Hls & H).
    unfold ret in H; injection H as <- <-.
    apply bind_ok_inv in Hlam as (a & s0 & Hget & Hest).
    apply getitem_inv in Hget as [-> ->].
    destruct (IH _ _ _ Hls) as [He Hlen].
    split; [econstructor; eauto | simpl; now rewrite Hlen].
Qed.


(** Everything a successful [_fit] has established. *)
Lemma _fit_inv self X est s self' s' :
  _BaseSkewnessTransformer._fit self X est s = (Ok self', s') ->
  exists df Xc s0 lams,
    frame_of X s = Some df
    /\ forallb (fun c => mem c (columns df)) (cols_list (cols self)) = true
    /\ (2 <= n_rows df)%nat
    /\ estimated est Xc (resolve_cols (cols self) df) s0 lams s'
    /\ length lams = length (resolve_cols (cols self) df)
    /\ self' = set_fit_cols_ (set_lambda_ self lams) (resolve_cols (cols self) df)
    /\ nth_error (frames s) Xc = None
    /\ nth_error (frames s0) Xc = Some df
    /\ (forall g d, nth_error (frames s) g = Some d ->
                    nth_error (frames s0) g = Some d)
    /\ arrays s0 = arrays s.
Proof.
  unfold _BaseSkewnessTransformer._fit; intros H.
  apply bind_ok_inv in H as ([[Xc cs] o] & s1 & Hchk & H).
  apply bind_ok_inv in H as ([] & s2 & Hrows & H).
  apply bind_ok_inv in H as (lams & s3 & Hpar & H).
  unfold ret in H; injection H as <- <-.
  apply check_dataframe_inv in Hchk
    as (df & Hdf & -> & Hpres & HXc & Hnew & Hold & Harr).
  unfold validate_multiple_rows, bind, load_frame in Hrows.
  rewrite HXc in Hrows.
  destruct (n_rows df <? 2)%nat eqn:En; [discriminate|].
  unfold ret in Hrows; injection Hrows as <-.
  apply Nat.ltb_ge in En.
  apply Parallel_estimated in Hpar as [Hest Hlen].
  exists df, Xc, s1, lams; repeat split; auto.
Qed.


(** C10.  A transformer that came out of a successful [_fit] transforms a
    table of exactly one row, provided the table holds every fit column:
    [transform] returns; [_fit] on that same table, with any estimator,
    raises [ValueError]: the count of rows is checked at fit time only. *)
Theorem transform_accepts_single_row
    (self0 : Transformer) (X0 : pyobj) (est : arraylike -> M R) (s0 : Store)
    (self : Transformer) (s1 : Store)
    (f : nat) (df : DataFrame) (fcols : list label) (s : Store) :
  _BaseSkewnessTransformer._fit self0 X0 est s0 = (Ok self, s1) ->
  fit_cols_ self = Some fcols ->
  nth_error (frames s) f = Some df ->
  n_rows df = 1%nat ->
  forallb (fun c => mem c (columns df)) fcols = true ->
  (exists out s', _BaseSkewnessTransformer.transform self (PFrame f) s = (Ok out, s'))
  /\ (forall est',
        fst (_BaseSkewnessTransformer._fit self (PFrame f) est' s)
        = Raise ValueError).
Proof.
  intros Hfit Hfc Hf Hrows Hpres.
  apply _fit_inv in Hfit
    as (df0 & Xc & st & lams & Hdf0 & Hpres0 & _ & _ & Hlen & -> & _).
  simpl in Hfc; injection Hfc as <-.
  assert (Hcols : forallb (fun c => mem c (columns df)) (cols_list (cols self0)) = true).
  { destruct (cols self0); [reflexivity | exact Hpres | exact Hpres]. }
  split.
  - destruct (transform_run (set_fit_cols_ (set_lambda_ self0 lams)
                               (resolve_cols (cols self0) df0))
                f df lams (resolve_cols (cols self0) df0) s)
      as (s' & E & _); auto.
    eexists _, s'; exact E.
  - intros est'.
    unfold _BaseSkewnessTransformer._fit.
    unfold bind at 1; cbn [cols set_fit_cols_ set_lambda_].
    rewrite (check_dataframe_frame f _ df s Hf Hcols).
    unfold bind at 1, validate_multiple_rows, bind, load_frame; simpl frames.
    rewrite nth_error_snoc, Hrows; reflexivity.
Qed.

(** ** The statements at concrete tables *)

Lemma bc_elem_half_1 x : 1 / 2 <= x -> bc_elem (1 / 2) 1 x = x - 1.
Proof.
  intros Hx; unfold bc_elem.
  rewrite Rmax_left by assumption.
  rewrite Rgtb_true by (pose proof ZERO_lt_1; lra).
  unfold np_power; rewrite Rpower_1 by lra.
  field.
Qed.

Lemma transform_replaces_fit_columns_witness :
  exists X' df' s',
    _BaseSkewnessTransformer.transform bc_on_a_fitted (PFrame 0) store_ab
    = (Ok (if as_df bc_on_a_fitted then OutFrame X' else OutValues (values df')), s')
    /\ nth_error (frames store_ab) X' = None
    /\ nth_error (frames s') X' = Some df'
    /\ columns df' = columns table_ab
    /\ (forall i nm lam,
          nth_error [col_a] i = Some nm -> nth_error [1] i = Some lam ->
          exists v, get_column table_ab nm = Some v
                    /\ contents (NdArray (Col 0 nm)) store_ab = Some v
                    /\ get_column df' nm
                       = Some (map (elem_transform bc_on_a_fitted lam) v))
    /\ (forall j c v,
          nth_error table_ab j = Some (c, v) -> ~ In c [col_a] ->
          nth_error df' j = Some (c, v))
    /\ (forall g d, nth_error (frames store_ab) g = Some d ->
                    nth_error (frames s') g = Some d)
    /\ (forall a v, nth_error (arrays store_ab) a = Some v ->
                    nth_error (arrays s') a = Some v).
Proof.
  apply (transform_replaces_fit_columns bc_on_a_fitted 0 table_ab [1] [col_a] store_ab).
  - reflexivity.
  - reflexivity.
  - reflexivity.
  - constructor; [intros [] | constructor].
  - intros min_value H; injection H as <-; lra.
  - reflexivity.
  - repeat constructor; simpl; [intros [H|[]]; discriminate H | intros []].
  - reflexivity.
  - reflexivity.
Defined.

(** C7 as stated fails: fitted on [cols = ['a', 'a']] with lambda 1 for
    both entries, the Box-Cox transformer returns for the column [[3.]] the
    column [[1.]], the transform applied twice, where the transform of
    [[3.]] under the stored lambda is [[2.]]. *)
Lemma transform_repeats_duplicate_fit_column :
  exists s',
    _BaseSkewnessTransformer.transform bc_on_a_a_fitted (PFrame 0) store_a1
    = (Ok (OutFrame 1), s')
    /\ nth_error (frames s') 1 = Some [(col_a, [1])]
    /\ map (elem_transform bc_on_a_a_fitted 1) [3] = [2]
    /\ [1] <> [2].
Proof.
  destruct (transform_run bc_on_a_a_fitted 0 table_a1 [1; 1] [col_a; col_a] store_a1
              eq_refl eq_refl eq_refl eq_refl eq_refl) as (s' & E & Hfr & _).
  exists s'; split; [exact E|].
  split; [|split].
  - rewrite Hfr; simpl.
    unfold elem_transform; simpl.
    rewrite (bc_elem_half_1 3) by lra.
    rewrite (bc_elem_half_1 (3 - 1)) by lra.
    now replace (3 - 1 - 1) with 1 by lra.
  - unfold elem_transform; simpl.
    rewrite (bc_elem_half_1 3) by lra.
    now replace (3 - 1) with 2 by lra.
  - intros H; injection H as H; lra.
Qed.



Lemma transform_accepts_single_row_witness :
  exists self s1,
    _BaseSkewnessTransformer._fit yj_on_a (PFrame 0)
      (_YJEstimator brent_answers_1 [-2; 2]) store_ab = (Ok self, s1)
    /\ (exists out s',
          _BaseSkewnessTransformer.transform self (PFrame 0) store_a1 = (Ok out, s'))
    /\ (forall est',
          fst (_BaseSkewnessTransformer._fit self (PFrame 0) est' store_a1)
          = Raise ValueError).
Proof.
  eexists _, _; split; [lazy -[IZR]; reflexivity|].
  eapply (transform_accepts_single_row yj_on_a (PFrame 0)
            (_YJEstimator brent_answers_1 [-2; 2]) store_ab _ _
            0 table_a1 [col_a] store_a1).
  - lazy -[IZR]; reflexivity.
  - reflexivity.
  - reflexivity.
  - reflexivity.
  - reflexivity.
Defined.

(** ** The estimator and a column without spread *)

(** [_yj_est_lam] adds nothing to the line search: its outcome, a lambda
    or an exception, is the outcome of [optimize.brent]. *)
Lemma _yj_est_lam_is_brent
    (brent : (R -> M scalar) -> list R -> M R) (r : ndref) (brack : list R) :
  _yj_est_lam brent (NdArray r) brack
  = brent (fun lmb => llf <- _yj_llf (NdArray r) lmb ;; ret (sneg llf)) brack.
Proof. reflexivity. Qed.

Lemma yj_llf_score_constant (lam t : R) : yj_llf_score lam [t; t] = NaN.
Proof.
  unfold yj_llf_score.
  assert (Hv : np_sum (vdiv (vsqr (vsub [t; t] (np_mean [t; t])))
                 (INR (length [t; t]))) = 0)
    by (unfold np_mean; simpl; field).
  now rewrite Hv, Reqb_true.
Qed.

(** On a column of two equal values the objective is the sentinel at every
    lambda. *)
Lemma _yj_llf_constant_column (r : ndref) (lam c : R) (s : Store) :
  contents (NdArray r) s = Some [c; c] ->
  fst (_yj_llf (NdArray r) lam s) = Ok NaN.
Proof.
  intros H.
  rewrite (_yj_llf_ndarray r lam [c; c] s H) by discriminate.
  unfold yj_llf_buffer; simpl.
  destruct (Rltb _ ZERO); apply f_equal; apply yj_llf_score_constant.
Qed.

(** ** Order and sign under the transforms *)

(** [(u^c - 1)/c] grows with [u] on the positive numbers, whatever the
    sign of [c]. *)
Lemma power_branch_increasing (c u u' : R) :
  c <> 0 -> 0 < u -> u < u' ->
  (Rpower u c - 1) / c < (Rpower u' c - 1) / c.
Proof.
  intros Hc Hu Huu.
  assert (Hln : ln u < ln u') by (apply ln_increasing; lra).
  unfold Rpower.
  destruct (Rlt_dec 0 c) as [Hpos|Hneg].
  - assert (H : exp (c * ln u) < exp (c * ln u'))
      by (apply exp_increasing, Rmult_lt_compat_l; assumption).
    apply Rmult_lt_compat_r; [apply Rinv_0_lt_compat; assumption | lra].
  - assert (Hc' : c < 0) by lra.
    assert (H : exp (c * ln u') < exp (c * ln u))
      by (apply exp_increasing; nra).
    assert (Hic : / c < 0) by (apply Rinv_lt_0_compat; assumption).
    unfold Rdiv; nra.
Qed.

Lemma power_branch_1 (c : R) : (Rpower 1 c - 1) / c = 0.
Proof.
  fold (np_power 1 c); rewrite np_power_1_l; unfold Rdiv; ring.
Qed.

Lemma yj_elem_nonneg_arg (lam x : R) :
  x >= 0 ->
  yj_elem lam x
  = if Rgtb lam ZERO then (Rpower (x + 1) lam - 1) / lam else ln (x + 1).
Proof. intros H; unfold yj_elem; now rewrite Rgeb_true. Qed.

Lemma yj_elem_neg_arg (lam x : R) :
  x < 0 ->
  yj_elem lam x
  = if Reqb lam 2 then - ln (- x + 1)
    else - (Rpower (- x + 1) (2 - lam) - 1) / (2 - lam).
Proof. intros H; unfold yj_elem; now rewrite Rgeb_false by lra. Qed.

Lemma yj_elem_increasing_right (lam x x' : R) :
  0 <= x -> x < x' -> yj_elem lam x < yj_elem lam x'.
Proof.
  intros Hx Hxx.
  rewrite !yj_elem_nonneg_arg by lra.
  unfold Rgtb; destruct (Rgt_dec lam ZERO) as [Hl|Hl].
  - apply power_branch_increasing; [pose proof ZERO_pos|..]; lra.
  - apply ln_increasing; lra.
Qed.

Lemma yj_elem_increasing_left (lam x x' : R) :
  x < x' -> x' <= 0 -> yj_elem lam x < yj_elem lam x'.
Proof.
  intros Hxx Hx'.
  rewrite (yj_elem_neg_arg lam x) by lra.
  assert (Hgoal : forall z, z = (if Reqb lam 2 then - ln (- x' + 1)
                     else - (Rpower (- x' + 1) (2 - lam) - 1) / (2 - lam)) ->
            (if Reqb lam 2 then - ln (- x + 1)
             else - (Rpower (- x + 1) (2 - lam) - 1) / (2 - lam)) < z).
  { intros z ->.
    unfold Reqb; destruct (Req_dec_T lam 2) as [Hl|Hl].
    - apply Ropp_lt_contravar, ln_increasing; lra.
    - assert (Hc : 2 - lam <> 0) by lra.
      pose proof (power_branch_increasing (2 - lam) (- x' + 1) (- x + 1) Hc) as H.
      unfold Rdiv in *; rewrite <- !Ropp_mult_distr_l.
      apply Ropp_lt_contravar, H; lra. }
  apply Hgoal.
  destruct (Req_dec_T x' 0) as [->|Hne].
  - rewrite yj_elem_0.
    replace (- 0 + 1) with 1 by lra.
    rewrite ln_1.
    pose proof (power_branch_1 (2 - lam)) as H1; unfold Rdiv in *.
    destruct (Reqb lam 2); [lra|].
    rewrite <- Ropp_mult_distr_l, H1; lra.
  - apply yj_elem_neg_arg; lra.
Qed.

Lemma yj_elem_increasing (lam x x' : R) :
  x < x' -> yj_elem lam x < yj_elem lam x'.
Proof.
  intros H.
  destruct (Rle_dec 0 x) as [Hx|Hx].
  - now apply yj_elem_increasing_right.
  - destruct (Rle_dec x' 0) as [Hx'|Hx'].
    + now apply yj_elem_increasing_left.
    + apply Rlt_trans with (yj_elem lam 0).
      * apply yj_elem_increasing_left; lra.
      * apply yj_elem_increasing_right; lra.
Qed.

Lemma yj_elem_monotone (lam x x' : R) :
  x <= x' -> yj_elem lam x <= yj_elem lam x'.
Proof.
  intros [H| ->]; [left; now apply yj_elem_increasing | right; reflexivity].
Qed.

(** On a float array or a list, the Yeo-Johnson transform never reverses
    the order of two values of a column, for every lambda: of two
    positions, the one whose value was not above the other's has a value
    not above the other's afterwards. *)
Theorem yj_transform_y_keeps_order
    (y : arraylike) (lam : R) (v : ndarray) (s : Store) :
  contents y s = Some v ->
  exists r s' v',
    _yj_transform_y y lam s = (Ok r, s')
    /\ read r s' = Some v'
    /\ length v' = length v
    /\ forall i j xi xj zi zj,
         nth_error v i = Some xi -> nth_error v j = Some xj ->
         nth_error v' i = Some zi -> nth_error v' j = Some zj ->
         xi <= xj -> zi <= zj.
Proof.
  intros H.
  destruct (_yj_transform_y_ok y lam v s H) as (r & s' & E & Hr).
  exists r, s', (map (yj_elem lam) v).
  split; [exact E|]; split; [exact Hr|]; split; [apply length_map|].
  intros i j xi xj zi zj Hi Hj Hzi Hzj Hle.
  rewrite nth_error_map, Hi in Hzi; rewrite nth_error_map, Hj in Hzj.
  injection Hzi as <-; injection Hzj as <-.
  now apply yj_elem_monotone.
Qed.

Lemma yj_transform_y_keeps_order_witness :
  exists r s' v',
    _yj_transform_y (PyList [3; -1]) 2 (mkStore [] []) = (Ok r, s')
    /\ read r s' = Some v'
    /\ length v' = length [3; -1]
    /\ forall i j xi xj zi zj,
         nth_error [3; -1] i = Some xi -> nth_error [3; -1] j = Some xj ->
         nth_error v' i = Some zi -> nth_error v' j = Some zj ->
         xi <= xj -> zi <= zj.
Proof.
  apply (yj_transform_y_keeps_order (PyList [3; -1]) 2 [3; -1]).
  reflexivity.
Defined.

(** On a float array or a list, the Yeo-Johnson transform never turns the
    sign of a value, for every lambda: a value that is not negative is not
    negative afterwards, and a value that is not positive is not positive
    afterwards. *)
Theorem yj_transform_y_keeps_sign
    (y : arraylike) (lam : R) (v : ndarray) (s : Store) :
  contents y s = Some v ->
  exists r s' v',
    _yj_transform_y y lam s = (Ok r, s')
    /\ read r s' = Some v'
    /\ Forall2 (fun x z => (0 <= x -> 0 <= z) /\ (x <= 0 -> z <= 0)) v v'.
Proof.
  intros H.
  destruct (_yj_transform_y_ok y lam v s H) as (r & s' & E & Hr).
  exists r, s', (map (yj_elem lam) v); repeat split; auto.
  clear; induction v as [|x v IH]; simpl; constructor; auto.
  pose proof (yj_elem_monotone lam x 0) as Hneg.
  pose proof (yj_elem_monotone lam 0 x) as Hpos.
  rewrite yj_elem_0 in Hneg, Hpos.
  split; assumption.
Qed.

Lemma yj_transform_y_keeps_sign_witness :
  exists r s' v',
    _yj_transform_y (PyList [3; -1]) 2 (mkStore [] []) = (Ok r, s')
    /\ read r s' = Some v'
    /\ Forall2 (fun x z => (0 <= x -> 0 <= z) /\ (x <= 0 -> z <= 0)) [3; -1] v'.
Proof.
  apply (yj_transform_y_keeps_sign (PyList [3; -1]) 2 [3; -1]).
  reflexivity.
Defined.

(** ** Box-Cox: order, lambda 1, and the untouched input *)

Lemma bc_transform_vector_values
    (min_value : R) (vec : arraylike) (lam : R) (v : ndarray) (s : Store) :
  contents vec s = Some v ->
  exists r s',
    BoxCoxTransformer._transform_vector min_value vec lam s = (Ok r, s')
    /\ read r s' = Some (map (bc_elem min_value lam) v).
Proof.
  intros H.
  destruct (bc_transform_vector_ok min_value vec lam v s H)
    as (r & s' & E & Hr & _).
  exists r, s'; split; auto.
  now rewrite Hr, bc_elem_map.
Qed.

Lemma bc_elem_monotone (min_value lam x x' : R) :
  0 < min_value -> x <= x' ->
  bc_elem min_value lam x <= bc_elem min_value lam x'.
Proof.
  intros Hm Hxx; unfold bc_elem, np_power, np_log.
  assert (Hy : 0 < Rmax x min_value)
    by (eapply Rlt_le_trans; [exact Hm | apply Rmax_r]).
  assert (Hyy : Rmax x min_value <= Rmax x' min_value)
    by (apply Rle_max_compat_r; assumption).
  destruct Hyy as [Hlt|Heq]; [|rewrite Heq; lra].
  left.
  unfold Rgtb; destruct (Rgt_dec lam ZERO) as [Hl|Hl].
  - apply power_branch_increasing; [pose proof ZERO_pos|..]; lra.
  - apply ln_increasing; lra.
Qed.

(** With a positive [min_value], the Box-Cox transform never reverses the
    order of two values of a column, for every lambda. *)
Theorem boxcox_transform_vector_monotone
    (min_value : R) (vec : arraylike) (lam : R) (v : ndarray) (s : Store) :
  0 < min_value ->
  contents vec s = Some v ->
  exists r s' v',
    BoxCoxTransformer._transform_vector min_value vec lam s = (Ok r, s')
    /\ read r s' = Some v'
    /\ length v' = length v
    /\ forall i j xi xj zi zj,
         nth_error v i = Some xi -> nth_error v j = Some xj ->
         nth_error v' i = Some zi -> nth_error v' j = Some zj ->
         xi <= xj -> zi <= zj.
Proof.
  intros Hm H.
  destruct (bc_transform_vector_values min_value vec lam v s H)
    as (r & s' & E & Hr).
  exists r, s', (map (bc_elem min_value lam) v).
  split; [exact E|]; split; [exact Hr|]; split; [apply length_map|].
  intros i j xi xj zi zj Hi Hj Hzi Hzj Hle.
  rewrite nth_error_map, Hi in Hzi; rewrite nth_error_map, Hj in Hzj.
  injection Hzi as <-; injection Hzj as <-.
  now apply bc_elem_monotone.
Qed.

Lemma boxcox_transform_vector_monotone_witness :
  exists r s' v',
    BoxCoxTransformer._transform_vector (1 / 2) (PyList [3; 0]) 2 (mkStore [] [])
    = (Ok r, s')
    /\ read r s' = Some v'
    /\ length v' = length [3; 0]
    /\ forall i j xi xj zi zj,
         nth_error [3; 0] i = Some xi -> nth_error [3; 0] j = Some xj ->
         nth_error v' i = Some zi -> nth_error v' j = Some zj ->
         xi <= xj -> zi <= zj.
Proof.
  apply (boxcox_transform_vector_monotone (1 / 2) (PyList [3; 0]) 2 [3; 0]).
  - lra.
  - reflexivity.
Defined.

(** With a positive [min_value] and lambda 1, the Box-Cox transform is the
    floored value minus 1; every value at or below [min_value] is sent to
    [min_value - 1]. *)
Theorem boxcox_transform_vector_lambda_1
    (min_value : R) (vec : arraylike) (v : ndarray) (s : Store) :
  0 < min_value ->
  contents vec s = Some v ->
  exists r s' v',
    BoxCoxTransformer._transform_vector min_value vec 1 s = (Ok r, s')
    /\ read r s' = Some v'
    /\ Forall2 (fun x z => z = Rmax x min_value - 1
                           /\ (x <= min_value -> z = min_value - 1)
                           /\ (min_value <= x -> z = x - 1)) v v'.
Proof.
  intros Hm H.
  destruct (bc_transform_vector_values min_value vec 1 v s H)
    as (r & s' & E & Hr).
  exists r, s', (map (bc_elem min_value 1) v).
  split; [exact E|]; split; [exact Hr|].
  clear - Hm; induction v as [|x v IH]; simpl; constructor; auto.
  assert (Hz : bc_elem min_value 1 x = Rmax x min_value - 1).
  { unfold bc_elem, np_power.
    rewrite Rgtb_true by (pose proof ZERO_lt_1; lra).
    rewrite Rpower_1; [field|].
    eapply Rlt_le_trans; [exact Hm | apply Rmax_r]. }
  rewrite Hz; repeat split.
  - intros Hx; now rewrite Rmax_right.
  - intros Hx; now rewrite Rmax_left.
Qed.

Lemma boxcox_transform_vector_lambda_1_witness :
  exists r s' v',
    BoxCoxTransformer._transform_vector (1 / 2) (PyList [3; 0]) 1 (mkStore [] [])
    = (Ok r, s')
    /\ read r s' = Some v'
    /\ Forall2 (fun x z => z = Rmax x (1 / 2) - 1
                           /\ (x <= 1 / 2 -> z = 1 / 2 - 1)
                           /\ (1 / 2 <= x -> z = x - 1)) [3; 0] v'.
Proof.
  apply (boxcox_transform_vector_lambda_1 (1 / 2) (PyList [3; 0]) [3; 0]).
  - lra.
  - reflexivity.
Defined.

Lemma read_app_old r w s new_a new_f :
  read r s = Some w ->
  read r (mkStore (arrays s ++ new_a) (frames s ++ new_f)) = Some w.
Proof.
  destruct r as [a|f nm|a]; simpl; intros H.
  - rewrite nth_error_app1; auto.
    apply nth_error_Some; congruence.
  - destruct (nth_error (frames s) f) as [df|] eqn:E; [|discriminate].
    rewrite nth_error_app1, E; auto.
    apply nth_error_Some; congruence.
  - rewrite nth_error_app1; auto.
    apply nth_error_Some; congruence.
Qed.

(** The Box-Cox [_transform_vector] never writes into what it is given:
    the array it returns is an object the store did not hold, as long as
    its argument, and every array and every column of every frame reads
    after the call as it read before. *)
Theorem boxcox_transform_vector_leaves_input
    (min_value : R) (vec : arraylike) (lam : R) (v : ndarray) (s : Store) :
  contents vec s = Some v ->
  exists r s' v',
    BoxCoxTransformer._transform_vector min_value vec lam s = (Ok r, s')
    /\ read r s = None
    /\ read r s' = Some v'
    /\ length v' = length v
    /\ forall r0 w, read r0 s = Some w -> read r0 s' = Some w.
Proof.
  intros H.
  unfold BoxCoxTransformer._transform_vector.
  set (out := if Rgtb lam ZERO
              then vdiv (vsub (vpow (np_maximum v min_value) lam) 1) lam
              else vlog (np_maximum v min_value)).
  assert (Hlen : length out = length v).
  { unfold out; rewrite bc_elem_map; apply length_map. }
  destruct vec as [r|l]; [apply contents_float in H as [H _] | simpl in H].
  - exists (Arr (length (arrays s))),
           (mkStore (arrays s ++ [out]) (frames s)), out.
    split; [|split; [|split; [|split]]]; auto.
    + simpl np_asarray; unfold bind at 1, ret at 1.
      unfold bind at 1; rewrite (load_ok _ _ _ H).
      unfold out; destruct (Rgtb lam ZERO); reflexivity.
    + simpl; apply nth_error_None; lia.
    + apply read_alloc.
    + intros r0 w Hw.
      rewrite <- (app_nil_r (frames s)); now apply read_app_old.
  - injection H as ->.
    exists (Arr (S (length (arrays s)))),
           (mkStore (arrays s ++ [v; out]) (frames s)), out.
    split; [|split; [|split; [|split]]]; auto.
    + simpl np_asarray; unfold bind at 1, alloc at 1.
      unfold bind at 1; rewrite (load_ok _ _ _ (read_alloc v s)).
      fold out.
      assert (Ea : forall w, alloc w (mkStore (arrays s ++ [v]) (frames s))
                = (Ok (Arr (S (length (arrays s)))),
                   mkStore (arrays s ++ [v; w]) (frames s))).
      { intros w; unfold alloc; simpl.
        rewrite length_app, <- app_assoc; simpl.
        now rewrite Nat.add_1_r. }
      unfold out; destruct (Rgtb lam ZERO); apply Ea.
    + unfold read; apply nth_error_None; lia.
    + unfold read; simpl arrays; rewrite nth_error_app2 by lia.
      replace (S (length (arrays s)) - length (arrays s))%nat with 1%nat by lia.
      reflexivity.
    + intros r0 w Hw.
      rewrite <- (app_nil_r (frames s)); now apply read_app_old.
Qed.

Lemma boxcox_transform_vector_leaves_input_witness :
  exists r s' v',
    BoxCoxTransformer._transform_vector (1 / 2) (NdArray (Arr 0)) 2
      (mkStore [[3; 0]] []) = (Ok r, s')
    /\ read r (mkStore [[3; 0]] []) = None
    /\ read r s' = Some v'
    /\ length v' = length [3; 0]
    /\ forall r0 w, read r0 (mkStore [[3; 0]] []) = Some w -> read r0 s' = Some w.
Proof.
  apply (boxcox_transform_vector_leaves_input (1 / 2) (NdArray (Arr 0)) 2 [3; 0]).
  reflexivity.
Defined.

(** ** The log-likelihood: its law, its sentinel, its edge *)




(** An empty column.  Both transforms return an empty array; the
    log-likelihood raises [ValueError], the minimum of an array of size
    zero. *)
Theorem empty_column (data : arraylike) (lam min_value : R) (s : Store) :
  contents data s = Some [] ->
  fst (_yj_llf data lam s) = Raise ValueError
  /\ (exists r s', _yj_transform_y data lam s = (Ok r, s')
                   /\ read r s' = Some [])
  /\ (exists r s', BoxCoxTransformer._transform_vector min_value data lam s
                   = (Ok r, s')
                   /\ read r s' = Some []).
Proof.
  intros H; split; [|split].
  - assert (Hnd : forall r s0, contents (NdArray r) s0 = Some [] ->
                    fst (_yj_llf (NdArray r) lam s0) = Raise ValueError).
    { intros r s0 Hc.
      pose proof (proj1 (contents_float _ _ _ Hc)) as Hr.
      unfold _yj_llf; simpl np_asarray.
      unfold bind at 1, ret at 1.
      unfold bind at 1; rewrite (load_ok _ _ _ Hr).
      unfold bind at 1; rewrite (_yj_transform_y_inplace _ _ _ _ Hc).
      simpl map.
      pose proof (read_write_same r [] [] s0 Hr) as H1.
      unfold bind at 1; rewrite (load_ok _ _ _ H1).
      unfold bind at 1; rewrite (load_ok _ _ _ H1).
      reflexivity. }
    destruct data as [r|l]; [now apply Hnd | simpl in H].
    + injection H as ->.
      specialize (Hnd (Arr (length (arrays s)))
                      (mkStore (arrays s ++ [[]]) (frames s)) (read_alloc [] s)).
      unfold _yj_llf in *; simpl np_asarray in *.
      unfold bind at 1; unfold alloc at 1.
      unfold bind at 1 in Hnd; unfold ret at 1 in Hnd.
      exact Hnd.
  - destruct (_yj_transform_y_ok data lam [] s H) as (r & s' & E & Hr); eauto.
  - destruct (bc_transform_vector_values min_value data lam [] s H)
      as (r & s' & E & Hr); eauto.
Qed.

Lemma empty_column_witness :
  fst (_yj_llf (PyList []) 2 (mkStore [] [])) = Raise ValueError
  /\ (exists r s', _yj_transform_y (PyList []) 2 (mkStore [] []) = (Ok r, s')
                   /\ read r s' = Some [])
  /\ (exists r s', BoxCoxTransformer._transform_vector (1 / 2) (PyList []) 2
                     (mkStore [] []) = (Ok r, s')
                   /\ read r s' = Some []).
Proof.
  apply (empty_column (PyList []) 2 (1 / 2) (mkStore [] [])).
  reflexivity.
Defined.

(** Handed a plain list, the Yeo-Johnson functions work on the copy
    [np.asarray] makes: every array and every column of every frame reads
    after the call as it read before. *)
Theorem yj_list_argument_leaves_store (l : list R) (lam : R) (s : Store) :
  l <> [] ->
  (exists r s', _yj_transform_y (PyList l) lam s = (Ok r, s')
                /\ read r s = None
                /\ forall r0 w, read r0 s = Some w -> read r0 s' = Some w)
  /\ (exists llf s', _yj_llf (PyList l) lam s = (Ok llf, s')
                     /\ forall r0 w, read r0 s = Some w -> read r0 s' = Some w).
Proof.
  intros Hne.
  assert (Hw : forall buf, write (Arr (length (arrays s))) buf
                 (mkStore (arrays s ++ [l]) (frames s))
               = mkStore (arrays s ++ [buf]) (frames s)).
  { intros buf; unfold write; simpl; f_equal.
    clear; induction (arrays s) as [|x a IH]; simpl; auto.
    now rewrite IH. }
  assert (Hold : forall buf r0 w, read r0 s = Some w ->
            read r0 (mkStore (arrays s ++ [buf]) (frames s)) = Some w).
  { intros buf r0 w Hr0.
    rewrite <- (app_nil_r (frames s)); now apply read_app_old. }
  split.
  - pose proof (_yj_transform_y_inplace (Arr (length (arrays s))) lam l
                  (mkStore (arrays s ++ [l]) (frames s)) (read_alloc l s)) as E.
    rewrite Hw in E.
    eexists _, _; split; [|split].
    + unfold _yj_transform_y in *; simpl np_asarray in *.
      unfold bind at 1; unfold alloc at 1.
      unfold bind at 1 in E; unfold ret at 1 in E.
      exact E.
    + unfold read; apply nth_error_None; lia.
    + apply Hold.
  - rewrite (_yj_llf_pylist lam l s Hne).
    eexists _, _; split; [reflexivity|].
    apply Hold.
Qed.

Lemma yj_list_argument_leaves_store_witness :
  (exists r s', _yj_transform_y (PyList [0; 1]) 2 (mkStore [[5]] []) = (Ok r, s')
                /\ read r (mkStore [[5]] []) = None
                /\ forall r0 w, read r0 (mkStore [[5]] []) = Some w ->
                                read r0 s' = Some w)
  /\ (exists llf s', _yj_llf (PyList [0; 1]) 2 (mkStore [[5]] []) = (Ok llf, s')
                     /\ forall r0 w, read r0 (mkStore [[5]] []) = Some w ->
                                     read r0 s' = Some w).
Proof.
  apply (yj_list_argument_leaves_store [0; 1] 2 (mkStore [[5]] [])).
  discriminate.
Defined.

(** ** [check_dataframe]: the copy, the difference, the errors *)

Lemma mem_In (c : label) (cs : list label) : mem c cs = true <-> In c cs.
Proof.
  unfold mem; rewrite existsb_exists; split.
  - intros (x & Hx & E); apply label_eqb_eq in E; now subst.
  - intros H; exists c; split; [assumption | apply label_eqb_refl].
Qed.

Lemma check_dataframe_frame_flags
    (f : nat) (ca : cols_arg) (fin cd : bool) (df : DataFrame) (s : Store) :
  nth_error (frames s) f = Some df ->
  forallb (fun c => mem c (columns df)) (cols_list ca) = true ->
  check_dataframe (PFrame f) ca fin cd s
  = (Ok (length (frames s), resolve_cols ca df,
         if cd
         then Some (filter (fun c => negb (mem c (resolve_cols ca df))) (columns df))
         else None),
     mkStore (arrays s) (frames s ++ [df])).
Proof.
  intros Hf Hc.
  unfold check_dataframe.
  unfold bind at 1, ret at 1.
  unfold bind at 1, load_frame at 1; rewrite Hf.
  assert (E : (match ca with
               | ColsNone => ret (columns df)
               | _ => if existsb (fun c => negb (mem c (columns df))) (cols_list ca)
                      then raise ValueError else ret (cols_list ca)
               end) s = (Ok (resolve_cols ca df), s)).
  { destruct ca; [reflexivity| |]; cbv beta iota;
      rewrite existsb_negb_forallb, Hc; reflexivity. }
  unfold bind at 1; rewrite E.
  rewrite count_nonfinite_0, andb_false_r.
  unfold bind at 1, ret at 1.
  unfold bind at 1, alloc_frame at 1.
  destruct cd; reflexivity.
Qed.

(** [check_dataframe] on a frame that has the requested columns, whatever
    the two flags: it returns a frame object the store did not hold, with
    the cells of the input, and the resolved columns (the requested labels
    as given, or all labels of the frame); every frame and array the store
    held is unchanged.  With [column_diff] set, each label of the frame is
    either among the resolved columns or in the difference, never both. *)
Theorem check_dataframe_copies
    (f : nat) (ca : cols_arg) (fin cd : bool) (df : DataFrame) (s : Store) :
  nth_error (frames s) f = Some df ->
  forallb (fun c => mem c (columns df)) (cols_list ca) = true ->
  exists Xc cs diff s',
    check_dataframe (PFrame f) ca fin cd s = (Ok (Xc, cs, diff), s')
    /\ nth_error (frames s) Xc = None
    /\ nth_error (frames s') Xc = Some df
    /\ cs = resolve_cols ca df
    /\ (forall g d, nth_error (frames s) g = Some d ->
                    nth_error (frames s') g = Some d)
    /\ arrays s' = arrays s
    /\ (cd = false -> diff = None)
    /\ (cd = true ->
        exists d, diff = Some d
                  /\ (forall c, In c d -> In c (columns df))
                  /\ (forall c, In c (columns df) -> (In c d <-> ~ In c cs))).
Proof.
  intros Hf Hc.
  eexists _, _, _, _.
  split; [apply (check_dataframe_frame_flags f ca fin cd df s Hf Hc)|].
  split; [apply nth_error_None; lia|].
  split; [apply nth_error_snoc|].
  split; [reflexivity|].
  split; [|split; [reflexivity|split]].
  - intros g d Hg; simpl.
    rewrite nth_error_app1; auto.
    apply nth_error_Some; congruence.
  - now intros ->.
  - intros ->; eexists; split; [reflexivity|]; split.
    + intros c Hin; apply filter_In in Hin; tauto.
    + intros c Hin; rewrite filter_In, negb_true_iff; split.
      * intros [_ Hm] Hcs; apply mem_In in Hcs; congruence.
      * intros Hn; split; auto.
        destruct (mem c (resolve_cols ca df)) eqn:Em; auto.
        apply mem_In in Em; contradiction.
Qed.

Lemma check_dataframe_copies_witness :
  exists Xc cs diff s',
    check_dataframe (PFrame 0) (ColsMany [col_a]) true true store_ab
    = (Ok (Xc, cs, diff), s')
    /\ nth_error (frames store_ab) Xc = None
    /\ nth_error (frames s') Xc = Some table_ab
    /\ cs = resolve_cols (ColsMany [col_a]) table_ab
    /\ (forall g d, nth_error (frames store_ab) g = Some d ->
                    nth_error (frames s') g = Some d)
    /\ arrays s' = arrays store_ab
    /\ (true = false -> diff = None)
    /\ (true = true ->
        exists d, diff = Some d
                  /\ (forall c, In c d -> In c (columns table_ab))
                  /\ (forall c, In c (columns table_ab) -> (In c d <-> ~ In c cs))).
Proof.
  apply (check_dataframe_copies 0 (ColsMany [col_a]) true true table_ab store_ab).
  - reflexivity.
  - reflexivity.
Defined.

Lemma check_dataframe_missing_column
    (f : nat) (ca : cols_arg) (fin cd : bool) (df : DataFrame) (s : Store) :
  nth_error (frames s) f = Some df ->
  ca <> ColsNone ->
  (exists c, In c (cols_list ca) /\ ~ In c (columns df)) ->
  check_dataframe (PFrame f) ca fin cd s = (Raise ValueError, s).
Proof.
  intros Hf Hca (c & Hin & Hnot).
  unfold check_dataframe.
  unfold bind at 1, ret at 1.
  unfold bind at 1, load_frame at 1; rewrite Hf.
  assert (E : existsb (fun c => negb (mem c (columns df))) (cols_list ca) = true).
  { apply existsb_exists; exists c; split; auto.
    apply negb_true_iff.
    destruct (mem c (columns df)) eqn:Em; auto.
    apply mem_In in Em; contradiction. }
  destruct ca; [congruence| |]; cbv beta iota;
    unfold bind at 1; rewrite E; reflexivity.
Qed.

(** The errors of [check_dataframe], each raised before any copy is made:
    [TypeError] for an argument that is not iterable; [ValueError] for an
    iterable that is no frame when [cols] is given; [ValueError] for a
    frame that misses one of the requested columns. *)
Theorem check_dataframe_errors
    (f : nat) (ca : cols_arg) (fin cd : bool) (df : DataFrame)
    (rows : list (list R)) (s : Store) :
  nth_error (frames s) f = Some df ->
  ca <> ColsNone ->
  check_dataframe PScalar ca fin cd s = (Raise TypeError, s)
  /\ check_dataframe PScalar ColsNone fin cd s = (Raise TypeError, s)
  /\ check_dataframe (PRecords rows) ca fin cd s = (Raise ValueError, s)
  /\ ((exists c, In c (cols_list ca) /\ ~ In c (columns df)) ->
      check_dataframe (PFrame f) ca fin cd s = (Raise ValueError, s)).
Proof.
  intros Hf Hca.
  split; [reflexivity|]; split; [reflexivity|]; split.
  - destruct ca; [congruence| |]; reflexivity.
  - now apply check_dataframe_missing_column.
Qed.

Lemma check_dataframe_errors_witness :
  check_dataframe PScalar (ColsMany [col_b]) true false store_a2
  = (Raise TypeError, store_a2)
  /\ check_dataframe PScalar ColsNone true false store_a2
     = (Raise TypeError, store_a2)
  /\ check_dataframe (PRecords [[1; 2]]) (ColsMany [col_b]) true false store_a2
     = (Raise ValueError, store_a2)
  /\ ((exists c, In c (cols_list (ColsMany [col_b])) /\ ~ In c (columns table_a2)) ->
      check_dataframe (PFrame 0) (ColsMany [col_b]) true false store_a2
      = (Raise ValueError, store_a2)).
Proof.
  apply (check_dataframe_errors 0 (ColsMany [col_b]) true false table_a2
           [[1; 2]] store_a2).
  - reflexivity.
  - discriminate.
Defined.

(** ** [transform] and [_fit]: failures and shape *)

(** [transform] on a transformer that was never fitted raises
    [NotFittedError] whatever it is given, a valid table or not, before
    anything is read or copied. *)
Theorem transform_before_fit (self : Transformer) (X : pyobj) (s : Store) :
  lambda_ self = None ->
  _BaseSkewnessTransformer.transform self X s = (Raise NotFittedError, s).
Proof.
  intros H; unfold _BaseSkewnessTransformer.transform.
  unfold bind at 1, check_is_fitted; now rewrite H.
Qed.

Lemma transform_before_fit_witness :
  _BaseSkewnessTransformer.transform yj_on_a PScalar store_ab
  = (Raise NotFittedError, store_ab).
Proof.
  apply (transform_before_fit yj_on_a PScalar store_ab).
  reflexivity.
Defined.



(** [_fit] on a table of fewer than two rows raises [ValueError] without
    running the estimator once: whatever the estimator is, the store holds
    the copy of the table and nothing else new. *)
Theorem fit_needs_two_rows
    (self : Transformer) (f : nat) (df : DataFrame)
    (est : arraylike -> M R) (s : Store) :
  nth_error (frames s) f = Some df ->
  forallb (fun c => mem c (columns df)) (cols_list (cols self)) = true ->
  (n_rows df < 2)%nat ->
  _BaseSkewnessTransformer._fit self (PFrame f) est s
  = (Raise ValueError, mkStore (arrays s) (frames s ++ [df])).
Proof.
  intros Hf Hcols Hrows.
  unfold _BaseSkewnessTransformer._fit.
  unfold bind at 1; rewrite (check_dataframe_frame f _ df s Hf Hcols).
  unfold bind at 1, validate_multiple_rows, bind, load_frame; simpl frames.
  rewrite nth_error_snoc.
  apply Nat.ltb_lt in Hrows; now rewrite Hrows.
Qed.

Lemma fit_needs_two_rows_witness :
  _BaseSkewnessTransformer._fit yj_on_a (PFrame 0)
    (_YJEstimator brent_answers_1 [-2; 2]) store_a1
  = (Raise ValueError, mkStore (arrays store_a1) (frames store_a1 ++ [table_a1])).
Proof.
  apply (fit_needs_two_rows yj_on_a 0 table_a1
           (_YJEstimator brent_answers_1 [-2; 2]) store_a1).
  - reflexivity.
  - reflexivity.
  - simpl; lia.
Defined.

Lemma replace_column_rectangular n df nm w :
  rectangular n df -> length w = n -> rectangular n (replace_column df nm w).
Proof.
  unfold rectangular; intros H Hw.
  induction H as [|[c u] df Hc _ IH]; simpl; constructor; auto.
  simpl in *; now destruct (label_eqb c nm).
Qed.

Lemma get_column_rectangular n df nm v :
  rectangular n df -> get_column df nm = Some v -> length v = n.
Proof.
  unfold rectangular; intros H.
  induction H as [|[c u] df Hc _ IH]; simpl; [discriminate|].
  destruct (label_eqb c nm); auto.
  now intros [= <-].
Qed.

Lemma apply_pairs_rectangular self pairs :
  forall n df, rectangular n df -> rectangular n (apply_pairs self pairs df).
Proof.
  induction pairs as [|[nm lam] ps IH]; intros n df H; simpl; auto.
  destruct (get_column df nm) as [v|] eqn:E; auto.
  apply IH, replace_column_rectangular; auto.
  rewrite length_map; eapply get_column_rectangular; eauto.
Qed.

(** [transform] keeps the shape of a table: the table it returns has the
    labels of the input, in their order, and as many rows in every column,
    whether or not a fit column is listed more than once. *)
Theorem transform_keeps_shape
    (self : Transformer) (f : nat) (df : DataFrame) (n : nat)
    (lams : list R) (fcols : list label) (s : Store) :
  lambda_ self = Some lams ->
  fit_cols_ self = Some fcols ->
  nth_error (frames s) f = Some df ->
  rectangular n df ->
  forallb (fun c => mem c (columns df)) (cols_list (cols self)) = true ->
  forallb (fun c => mem c (columns df)) fcols = true ->
  exists out df' s',
    _BaseSkewnessTransformer.transform self (PFrame f) s = (Ok out, s')
    /\ nth_error (frames s') (length (frames s)) = Some df'
    /\ (as_df self = true -> out = OutFrame (length (frames s)))
    /\ (as_df self = false -> out = OutValues (values df'))
    /\ columns df' = columns df
    /\ rectangular n df'
    /\ n_rows df' = n_rows df.
Proof.
  intros Hl Hc Hf Hrect Hcols Hfit.
  destruct (transform_run self f df lams fcols s Hl Hc Hf Hcols Hfit)
    as (s' & E & Hfr & _).
  set (df' := apply_pairs self (combine fcols lams) df) in *.
  assert (Hrect' : rectangular n df') by now apply apply_pairs_rectangular.
  assert (Hcolumns : columns df' = columns df) by apply apply_pairs_columns.
  eexists _, df', s'.
  split; [exact E|].
  split; [rewrite Hfr; apply nth_error_snoc|].
  split; [now intros ->|].
  split; [now intros ->|].
  split; [exact Hcolumns|].
  split; [exact Hrect'|].
  destruct df as [|[c u] df0], df' as [|[c' u'] df0']; try discriminate; auto.
  inversion Hrect; inversion Hrect'; subst; simpl in *; congruence.
Qed.

Lemma transform_keeps_shape_witness :
  exists out df' s',
    _BaseSkewnessTransformer.transform bc_on_a_a_fitted (PFrame 0) store_ab
    = (Ok out, s')
    /\ nth_error (frames s') (length (frames store_ab)) = Some df'
    /\ (as_df bc_on_a_a_fitted = true -> out = OutFrame (length (frames store_ab)))
    /\ (as_df bc_on_a_a_fitted = false -> out = OutValues (values df'))
    /\ columns df' = columns table_ab
    /\ rectangular 2 df'
    /\ n_rows df' = n_rows table_ab.
Proof.
  apply (transform_keeps_shape bc_on_a_a_fitted 0 table_ab 2
           [1; 1] [col_a; col_a] store_ab).
  - reflexivity.
  - reflexivity.
  - reflexivity.
  - repeat constructor.
  - reflexivity.
  - reflexivity.
Defined.

(** ** Fitting the Box-Cox transformer *)

Lemma has_column_columns df c : In c (columns df) -> has_column df c = true.
Proof. intros H; now apply mem_In. Qed.

Lemma resolve_cols_present ca df :
  forallb (fun c => mem c (columns df)) (cols_list ca) = true ->
  forall c, In c (resolve_cols ca df) -> has_column df c = true.
Proof.
  intros H c Hin.
  destruct ca; simpl in Hin.
  - now apply has_column_columns.
  - rewrite forallb_forall in H; exact (H c Hin).
  - rewrite forallb_forall in H; exact (H c Hin).
Qed.

(** The Box-Cox estimator reads the series and leaves the store alone. *)
Lemma _BCEstimator_run scipy min_value X df c s :
  nth_error (frames s) X = Some df ->
  has_column df c = true ->
  (Xi <- getitem X c ;; _BCEstimator scipy min_value Xi) s
  = (scipy (np_maximum (column_values df c) min_value), s).
Proof.
  intros Hf Hc.
  destruct (proj1 (has_column_get df c) Hc) as [v Hv].
  unfold getitem.
  unfold bind at 1. unfold bind at 1, load_frame at 1; rewrite Hf, Hc.
  unfold ret at 1.
  unfold _BCEstimator, _bc_est_lam; simpl np_asarray.
  unfold bind at 1, ret at 1.
  assert (Hread : read (Col X c) s = Some v) by (simpl; now rewrite Hf).
  unfold bind at 1; rewrite (load_ok _ _ _ Hread).
  unfold column_values; now rewrite Hv.
Qed.

Lemma Parallel_BCEstimator scipy min_value n X df s cs :
  nth_error (frames s) X = Some df ->
  (forall c, In c cs -> has_column df c = true) ->
  Parallel n (fun i => Xi <- getitem X i ;; _BCEstimator scipy min_value Xi) cs s
  = (sequence_results
       (map (fun c => scipy (np_maximum (column_values df c) min_value)) cs), s).
Proof.
  intros Hf; unfold Parallel.
  induction cs as [|c cs IH]; intros Hall; cbn [mapM map sequence_results].
  - reflexivity.
  - unfold bind at 1.
    rewrite (_BCEstimator_run scipy min_value X df c s Hf (Hall c (or_introl eq_refl))).
    destruct (scipy _) as [lam|e]; [|reflexivity].
    unfold bind at 1; rewrite IH by (intros c' Hc'; apply Hall; now right).
    destruct (sequence_results _); reflexivity.
Qed.

(** Fitting the Box-Cox transformer on a table of at least two rows that
    has the requested columns.  The estimator is handed, for each resolved
    column in order, the values of that column floored at [min_value]; if
    it answers on all of them, the transformer stores its answers in that
    order with the resolved columns; if it raises on one, [fit] raises the
    first such exception.  Either way the store holds the copy of the
    table and, beside it, exactly what it held before. *)
Theorem boxcox_fit_outcome
    (scipy : ndarray -> result R) (brent : (R -> M scalar) -> list R -> M R)
    (self : Transformer) (min_value : R)
    (f : nat) (df : DataFrame) (s : Store) :
  params self = BoxCox min_value ->
  nth_error (frames s) f = Some df ->
  forallb (fun c => mem c (columns df)) (cols_list (cols self)) = true ->
  (2 <= n_rows df)%nat ->
  fit scipy brent self (PFrame f) s
  = (match sequence_results
             (map (fun c => scipy (np_maximum (column_values df c) min_value))
                  (resolve_cols (cols self) df)) with
     | Ok lams =>
         Ok (set_fit_cols_ (set_lambda_ self lams) (resolve_cols (cols self) df))
     | Raise e => Raise e
     end,
     mkStore (arrays s) (frames s ++ [df])).
Proof.
  intros Hp Hf Hcols Hrows.
  unfold fit; rewrite Hp.
  unfold _BaseSkewnessTransformer._fit.
  unfold bind at 1; rewrite (check_dataframe_frame f _ df s Hf Hcols).
  set (s1 := mkStore (arrays s) (frames s ++ [df])).
  assert (HX : nth_error (frames s1) (length (frames s)) = Some df)
    by apply nth_error_snoc.
  unfold bind at 1, validate_multiple_rows at 1.
  unfold bind at 1, load_frame at 1; rewrite HX.
  apply Nat.ltb_ge in Hrows; rewrite Hrows; unfold ret at 1.
  unfold bind at 1.
  rewrite (Parallel_BCEstimator scipy min_value _ _ df s1 _ HX
             (resolve_cols_present _ _ Hcols)).
  destruct (sequence_results _); reflexivity.
Qed.

Lemma boxcox_fit_outcome_witness :
  fit boxcox_answers_1 brent_answers_1 bc_on_a_a (PFrame 0) store_a2
  = (match sequence_results
             (map (fun c => boxcox_answers_1
                              (np_maximum (column_values table_a2 c) (1 / 2)))
                  (resolve_cols (cols bc_on_a_a) table_a2)) with
     | Ok lams =>
         Ok (set_fit_cols_ (set_lambda_ bc_on_a_a lams)
                           (resolve_cols (cols bc_on_a_a) table_a2))
     | Raise e => Raise e
     end,
     mkStore (arrays store_a2) (frames store_a2 ++ [table_a2])).
Proof.
  apply (boxcox_fit_outcome boxcox_answers_1 brent_answers_1 bc_on_a_a (1 / 2)
           0 table_a2 store_a2).
  - reflexivity.
  - reflexivity.
  - reflexivity.
  - simpl; lia.
Defined.

(** ** [fit]: the input errors reach the caller *)

Lemma _fit_check_raises self X est s e s' :
  check_dataframe X (cols self) true false s = (Raise e, s') ->
  _BaseSkewnessTransformer._fit self X est s = (Raise e, s').
Proof.
  intros H; unfold _BaseSkewnessTransformer._fit, bind; now rewrite H.
Qed.

(** [fit] of either transformer rejects a bad input before it estimates
    anything or copies anything: [TypeError] for an argument that is not
    iterable, [ValueError] for records when [cols] is set, [ValueError] for
    a frame that misses a requested column; the store is as it was. *)
Theorem fit_input_errors
    (scipy : ndarray -> result R) (brent : (R -> M scalar) -> list R -> M R)
    (self : Transformer) (f : nat) (df : DataFrame)
    (rows : list (list R)) (s : Store) :
  nth_error (frames s) f = Some df ->
  cols self <> ColsNone ->
  fit scipy brent self PScalar s = (Raise TypeError, s)
  /\ fit scipy brent self (PRecords rows) s = (Raise ValueError, s)
  /\ ((exists c, In c (cols_list (cols self)) /\ ~ In c (columns df)) ->
      fit scipy brent self (PFrame f) s = (Raise ValueError, s)).
Proof.
  intros Hf Hc.
  unfold fit; destruct (params self); (split; [|split]).
  all: try (intros Hm; apply _fit_check_raises;
            now apply (check_dataframe_missing_column f _ true false df)).
  all: apply _fit_check_raises; try reflexivity.
  all: destruct (cols self); [congruence| |]; reflexivity.
Qed.

Lemma fit_input_errors_witness :
  fit boxcox_answers_1 brent_answers_1 yj_on_b PScalar store_a2
  = (Raise TypeError, store_a2)
  /\ fit boxcox_answers_1 brent_answers_1 yj_on_b (PRecords [[1; 2]]) store_a2
     = (Raise ValueError, store_a2)
  /\ ((exists c, In c (cols_list (cols yj_on_b)) /\ ~ In c (columns table_a2)) ->
      fit boxcox_answers_1 brent_answers_1 yj_on_b (PFrame 0) store_a2
      = (Raise ValueError, store_a2)).
Proof.
  apply (fit_input_errors boxcox_answers_1 brent_answers_1 yj_on_b
           0 table_a2 [[1; 2]] store_a2).
  - reflexivity.
  - discriminate.
Defined.

(** ** Fitting, then transforming the same table *)

Lemma sequence_results_ok {A} (g : A -> result R) (cs : list A) :
  forall lams,
    sequence_results (map g cs) = Ok lams ->
    length lams = length cs
    /\ forall i c lam, nth_error cs i = Some c -> nth_error lams i = Some lam ->
                       g c = Ok lam.
Proof.
  induction cs as [|c cs IH]; intros lams H; cbn [map sequence_results] in H.
  - injection H as <-; split; auto.
    intros [|i]; discriminate.
  - destruct (g c) as [a|e] eqn:Eg; [|discriminate].
    destruct (sequence_results (map g cs)) as [l|e]; [|discriminate].
    injection H as <-.
    destruct (IH l eq_refl) as [Hlen Hnth].
    split; [simpl; now rewrite Hlen|].
    intros [|i] c' lam; simpl.
    + now intros [= <-] [= <-].
    + apply Hnth.
Qed.

(** Box-Cox, fit and then transform of one table with distinct target
    columns, on which the estimator answered: both calls return; in the
    table [transform] returns, the i-th target column holds the Box-Cox
    transform of its values in the input under the lambda the estimator
    answered for that column floored at [min_value]; the other columns and
    the caller's table are as they were. *)
Theorem boxcox_fit_then_transform
    (scipy : ndarray -> result R) (brent : (R -> M scalar) -> list R -> M R)
    (self : Transformer) (min_value : R)
    (f : nat) (df : DataFrame) (lams : list R) (s : Store) :
  params self = BoxCox min_value ->
  nth_error (frames s) f = Some df ->
  forallb (fun c => mem c (columns df)) (cols_list (cols self)) = true ->
  (2 <= n_rows df)%nat ->
  NoDup (resolve_cols (cols self) df) ->
  sequence_results
    (map (fun c => scipy (np_maximum (column_values df c) min_value))
         (resolve_cols (cols self) df)) = Ok lams ->
  exists self' s1 out df' s2,
    fit scipy brent self (PFrame f) s = (Ok self', s1)
    /\ _BaseSkewnessTransformer.transform self' (PFrame f) s1 = (Ok out, s2)
    /\ nth_error (frames s2) (length (frames s1)) = Some df'
    /\ columns df' = columns df
    /\ (forall i c lam,
          nth_error (resolve_cols (cols self) df) i = Some c ->
          nth_error lams i = Some lam ->
          scipy (np_maximum (column_values df c) min_value) = Ok lam
          /\ get_column df' c
             = Some (map (bc_elem min_value lam) (column_values df c)))
    /\ (forall j c v,
          nth_error df j = Some (c, v) ->
          ~ In c (resolve_cols (cols self) df) ->
          nth_error df' j = Some (c, v))
    /\ nth_error (frames s2) f = Some df.
Proof.
  intros Hp Hf Hcols Hrows Hnd Hseq.
  set (cs := resolve_cols (cols self) df) in *.
  set (self' := set_fit_cols_ (set_lambda_ self lams) cs).
  set (s1 := mkStore (arrays s) (frames s ++ [df])).
  assert (HX : nth_error (frames s1) (length (frames s)) = Some df)
    by apply nth_error_snoc.
  assert (Efit : fit scipy brent self (PFrame f) s = (Ok self', s1)).
  { unfold fit; rewrite Hp.
    unfold _BaseSkewnessTransformer._fit.
    unfold bind at 1; rewrite (check_dataframe_frame f _ df s Hf Hcols).
    fold s1; fold cs.
    unfold bind at 1, validate_multiple_rows at 1.
    unfold bind at 1, load_frame at 1; rewrite HX.
    apply Nat.ltb_ge in Hrows; rewrite Hrows; unfold ret at 1.
    unfold bind at 1.
    rewrite (Parallel_BCEstimator scipy min_value _ _ df s1 cs HX
               (resolve_cols_present _ _ Hcols)).
    now rewrite Hseq. }
  destruct (sequence_results_ok _ cs lams Hseq) as [Hlen Hans].
  assert (Hf1 : nth_error (frames s1) f = Some df).
  { simpl; rewrite nth_error_app1; auto.
    apply nth_error_Some; congruence. }
  assert (Hfit : forallb (fun c => mem c (columns df)) cs = true).
  { apply forallb_forall; intros c Hc.
    exact (resolve_cols_present _ _ Hcols c Hc). }
  destruct (transform_run self' f df lams cs s1
              eq_refl eq_refl Hf1 Hcols Hfit) as (s2 & E & Hfr & _).
  pose proof (map_fst_combine cs lams Hlen) as Hfst.
  exists self', s1; eexists _, (apply_pairs self' (combine cs lams) df), s2.
  split; [exact Efit|].
  split; [exact E|].
  split; [rewrite Hfr; apply nth_error_snoc|].
  split; [apply apply_pairs_columns|].
  split; [|split].
  - intros i c lam Hi Hli; split; [now apply (Hans i)|].
    destruct (forallb_mem_get df cs Hfit c (nth_error_In _ _ Hi)) as [v Hv].
    unfold column_values; rewrite Hv.
    replace (bc_elem min_value lam) with (elem_transform self' lam)
      by (unfold elem_transform; simpl; now rewrite Hp).
    apply (apply_pairs_fit_column self' (combine cs lams)) with (i := i); auto.
    + now rewrite Hfst.
    + now apply nth_error_combine.
  - intros j c v Hj Hn.
    apply apply_pairs_other_entry; auto.
    now rewrite Hfst.
  - rewrite Hfr, nth_error_app1; auto.
    apply nth_error_Some; congruence.
Qed.

Lemma boxcox_fit_then_transform_witness :
  exists self' s1 out df' s2,
    fit boxcox_answers_1 brent_answers_1 bc_on_a (PFrame 0) store_ab
    = (Ok self', s1)
    /\ _BaseSkewnessTransformer.transform self' (PFrame 0) s1 = (Ok out, s2)
    /\ nth_error (frames s2) (length (frames s1)) = Some df'
    /\ columns df' = columns table_ab
    /\ (forall i c lam,
          nth_error (resolve_cols (ColsMany [col_a]) table_ab) i = Some c ->
          nth_error [1] i = Some lam ->
          boxcox_answers_1 (np_maximum (column_values table_ab c) (1 / 2)) = Ok lam
          /\ get_column df' c
             = Some (map (bc_elem (1 / 2) lam) (column_values table_ab c)))
    /\ (forall j c v,
          nth_error table_ab j = Some (c, v) ->
          ~ In c (resolve_cols (ColsMany [col_a]) table_ab) ->
          nth_error df' j = Some (c, v))
    /\ nth_error (frames s2) 0 = Some table_ab.
Proof.
  apply (boxcox_fit_then_transform boxcox_answers_1 brent_answers_1 bc_on_a
           (1 / 2) 0 table_ab [1] store_ab).
  - reflexivity.
  - reflexivity.
  - reflexivity.
  - simpl; lia.
  - constructor; [intros [] | constructor].
  - reflexivity.
Defined.
